(** * trailer_header: HTTP trailer announce / stream / verify

  A shallow embedding of [trailer_header.go]: the server handler
  [serverHandler], the client side of [main] (request construction and the
  body-producer goroutine), and the pieces of the Go standard library the
  program calls ([strconv.Atoi], [strconv.Itoa], [io.Pipe], [io.ReadAll],
  [http.Header]), each modelled after its Go implementation.

  Go's [int] is the 64-bit signed integer; it is modelled as [Z] with the
  wrap-around written out.  Go strings and byte slices are byte sequences;
  they are modelled as [string] (a sequence of 8-bit [ascii]) and
  [list Byte.byte]. *)

From Stdlib Require Import ZArith Lia Ascii String List.
From Stdlib.Strings Require Import Byte.
From stdpp Require Import base option list gmap strings fin_maps.

Local Open Scope string_scope.
Local Open Scope list_scope.
Local Open Scope Z_scope.

(** ** Machine integers *)

(** The number of a [byte]. *)
Definition byte_val (c : ascii) : Z := Z.of_N (N_of_ascii c).

Module GoInt.

Definition intSize : Z := 64.
Definition maxInt : Z := 2 ^ 63 - 1.
Definition minInt : Z := - 2 ^ 63.
Definition maxUint64 : Z := 2 ^ 64 - 1.

(** Two's-complement wrap-around of a 64-bit signed [int]. *)
Definition wrap (z : Z) : Z := (z + 2 ^ 63) mod 2 ^ 64 - 2 ^ 63.

(** Wrap-around of a [uint64]. *)
Definition wrapU (z : Z) : Z := z mod 2 ^ 64.

Definition in_range (z : Z) : Prop := minInt <= z <= maxInt.

End GoInt.

(** ** package strconv *)

Module strconv.

(** The two errors of [strconv.NumError]: [ErrSyntax] and [ErrRange]. *)
Inductive NumError := ErrSyntax | ErrRange.

Inductive result (A : Type) :=
| Ok (a : A)
| Err (e : NumError).
Arguments Ok {A} a.
Arguments Err {A} e.

(** [ch -= '0'] on a [byte]: subtraction modulo 256. *)
Definition sub0 (c : ascii) : Z := (byte_val c - 48) mod 256.

Definition is_sign (c : ascii) : bool :=
  (byte_val c =? 45) || (byte_val c =? 43).

Definition is_minus (c : ascii) : bool := byte_val c =? 45.

(** The loop of the fast path of [Atoi]:
    [for _, ch := range []byte(s) { ch -= '0'; if ch > 9 { return 0, syntaxError };
     n = n*10 + int(ch) }]. *)
Fixpoint atoi_fast_loop (s : string) (n : Z) : result Z :=
  match s with
  | EmptyString => Ok n
  | String ch s' =>
      let d := sub0 ch in
      if 9 <? d then Err ErrSyntax
      else atoi_fast_loop s' (GoInt.wrap (n * 10 + d))
  end.

(** [cutoff = maxUint64/10 + 1], the smallest [n] with [n*10] out of range. *)
Definition cutoff : Z := GoInt.maxUint64 / 10 + 1.

(** The digit loop of [ParseUint(s, 10, 64)] (no underscores in base 10):
    a byte outside ['0'..'9'] is a syntax error, an overflow is a range
    error, whichever comes first from the left. *)
Fixpoint parseUint_loop (s : string) (n : Z) : result Z :=
  match s with
  | EmptyString => Ok n
  | String c s' =>
      if (48 <=? byte_val c) && (byte_val c <=? 57) then
        let d := byte_val c - 48 in
        if cutoff <=? n then Err ErrRange
        else
          let n10 := GoInt.wrapU (n * 10) in
          let n1 := GoInt.wrapU (n10 + d) in
          if (n1 <? n10) || (GoInt.maxUint64 <? n1) then Err ErrRange
          else parseUint_loop s' n1
      else Err ErrSyntax
  end.

Definition ParseUint (s : string) : result Z :=
  match s with
  | EmptyString => Err ErrSyntax
  | _ => parseUint_loop s 0
  end.

(** [ParseInt(s, 10, 0)]: optional sign, then [ParseUint], then the check
    against the range of [int].  A syntax error of [ParseUint] is returned as
    it is; with a range error [ParseUint] returns the largest [uint64], which
    fails the check against the range of [int]: a range error again. *)
Definition ParseInt (s : string) : result Z :=
  match s with
  | EmptyString => Err ErrSyntax
  | String c0 rest =>
      let neg := is_minus c0 in
      let s1 := if is_sign c0 then rest else s in
      match ParseUint s1 with
      | Err e => Err e
      | Ok un =>
          let cut := 2 ^ (GoInt.intSize - 1) in
          if negb neg && (cut <=? un) then Err ErrRange
          else if neg && (cut <? un) then Err ErrRange
          else Ok (if neg then - un else un)
      end
  end.

(** [strconv.Atoi]: the fast path for strings of 1 to 18 bytes, the slow
    path through [ParseInt] for the rest. *)
Definition Atoi (s : string) : result Z :=
  let sLen := Z.of_nat (String.length s) in
  if (0 <? sLen) && (sLen <? 19) then
    match s with
    | EmptyString => Err ErrSyntax
    | String c0 rest =>
        let s1 := if is_sign c0 then rest else s in
        if is_sign c0 && (Z.of_nat (String.length s1) <? 1) then Err ErrSyntax
        else
          match atoi_fast_loop s1 0 with
          | Err e => Err e
          | Ok n => Ok (if is_minus c0 then GoInt.wrap (- n) else n)
          end
    end
  else ParseInt s.

Definition digit (d : Z) : ascii := ascii_of_N (Z.to_N (48 + d)).

(** The digit loop of [formatBits] in base 10: digits are produced from the
    least significant one, in front of what is already there.  A [uint64]
    has at most 20 digits, which bounds the recursion. *)
Fixpoint formatBits (fuel : nat) (us : Z) (acc : string) : string :=
  if us <? 10 then String (digit us) acc
  else
    match fuel with
    | O => String (digit (us mod 10)) acc
    | S fuel' => formatBits fuel' (us / 10) (String (digit (us mod 10)) acc)
    end.

(** [strconv.Itoa(i) = FormatInt(int64(i), 10)]. *)
Definition Itoa (i : Z) : string :=
  if i <? 0 then String "-"%char (formatBits 20 (GoInt.wrapU (- i)) "")
  else formatBits 20 i "".

(** A string of decimal digits, and the number it denotes when read after
    the digits of [n]. *)
Fixpoint digits_only (s : string) : bool :=
  match s with
  | EmptyString => true
  | String c s' => (48 <=? byte_val c) && (byte_val c <=? 57) && digits_only s'
  end.

Fixpoint decimal_value (s : string) (n : Z) : Z :=
  match s with
  | EmptyString => n
  | String c s' => decimal_value s' (n * 10 + (byte_val c - 48))
  end.

(** A base-10 integer with an optional sign that fits an [int], and the
    number it denotes: an optional ['+'] or ['-'], then one digit or more. *)
Definition signed_decimal (s : string) : option Z :=
  match s with
  | EmptyString => None
  | String c0 rest =>
      let digits := if is_sign c0 then rest else s in
      match digits with
      | EmptyString => None
      | _ =>
          if digits_only digits then
            let v := decimal_value digits 0 in
            let n := if is_minus c0 then - v else v in
            if (GoInt.minInt <=? n) && (n <=? GoInt.maxInt) then Some n else None
          else None
      end
  end.

End strconv.

(** ** Errors

    A Go [error] value that is not nil.  [nil] is [None] of [option error]. *)

Inductive error :=
| EOF                          (* io.EOF *)
| ErrClosedPipe                (* io.ErrClosedPipe *)
| ErrUnexpectedEOF             (* io.ErrUnexpectedEOF *)
| ErrOther (msg : string).     (* any other error *)

(** [len] of a slice or string, an [int]. *)
Definition len {A : Type} (l : list A) : Z := Z.of_nat (List.length l).

Definition len_string (s : string) : Z := Z.of_nat (String.length s).

(** [[]byte(s)]. *)
Definition bytes_of_string (s : string) : list byte := list_byte_of_string s.

(** ** package io: the synchronous in-memory pipe *)

Module io.

(** The state shared by the two ends of an [io.Pipe].  A write hands its bytes
    over to the reads that consume them and returns only when they are all
    consumed, so the state keeps the bytes handed over so far; [werr] and
    [rerr] are the two [onceError] fields, set when an end is closed. *)
Record pipe := mkPipe {
  delivered : list byte;
  werr : option error;
  rerr : option error
}.

(** [io.Pipe()]. *)
Definition Pipe : pipe := {| delivered := []; werr := None; rerr := None |}.

(** The [done] channel is closed once either end is closed. *)
Definition done (p : pipe) : bool :=
  match werr p, rerr p with
  | None, None => false
  | _, _ => true
  end.

(** [onceError.Store]: only the first error is kept. *)
Definition onceError_Store (cur : option error) (err : error) : option error :=
  match cur with
  | Some _ => cur
  | None => Some err
  end.

Definition readCloseError (p : pipe) : error :=
  match rerr p, werr p with
  | None, Some w => w
  | _, _ => ErrClosedPipe
  end.

Definition writeCloseError (p : pipe) : error :=
  match werr p, rerr p with
  | None, Some r => r
  | _, _ => ErrClosedPipe
  end.

(** [pw.CloseWithError(err)]; a nil [err] stands for [EOF]. *)
Definition closeWrite (p : pipe) (err : option error) : pipe :=
  {| delivered := delivered p;
     werr := onceError_Store (werr p) (default EOF err);
     rerr := rerr p |}.

(** [pr.CloseWithError(err)]; a nil [err] stands for [ErrClosedPipe]. *)
Definition closeRead (p : pipe) (err : option error) : pipe :=
  {| delivered := delivered p;
     werr := werr p;
     rerr := onceError_Store (rerr p) (default ErrClosedPipe err) |}.

(** [pw.Close()] is [pw.CloseWithError(nil)]. *)
Definition Close (p : pipe) : pipe := closeWrite p None.

(** What the goroutine at the read end does while a write is blocked: it
    either keeps reading until the end of the stream ([io.ReadAll], the HTTP
    transport sending the body), or it makes a finite number of [Read] calls,
    with buffers of the given sizes, and then closes the read end with
    [pr.CloseWithError(err)]. *)
Inductive reader :=
| ReadsToEnd
| ReadsThenCloses (reads : list nat) (err : option error).

(** The loop of [pipe.write],
    [for once := true; once || len(b) > 0; once = false], against a reader
    that closes after the [Read] calls listed: each [Read] takes
    [copy(buf, b)] bytes; when the reader closes, the write returns the bytes
    written so far and [writeCloseError]. *)
Fixpoint write_loop (reads : list nat) (cerr : option error) (p : pipe)
    (b : list byte) (once : bool) (n : Z)
    : pipe * reader * (Z * option error) :=
  if once || negb (len b =? 0) then
    match reads with
    | [] =>
        let p' := closeRead p cerr in
        (p', ReadsThenCloses [] cerr, (n, Some (writeCloseError p')))
    | k :: reads' =>
        let nw := take k b in
        write_loop reads' cerr
          {| delivered := delivered p ++ nw; werr := werr p; rerr := rerr p |}
          (drop k b) false (n + len nw)
    end
  else (p, ReadsThenCloses reads cerr, (n, None)).

(** [pw.Write(b)]: fails at once on a closed pipe; otherwise blocks until the
    reader has consumed all of [b] or has closed its end. *)
Definition Write (rd : reader) (p : pipe) (b : list byte)
    : pipe * reader * (Z * option error) :=
  if done p then (p, rd, (0, Some (writeCloseError p)))
  else
    match rd with
    | ReadsToEnd =>
        ({| delivered := delivered p ++ b; werr := werr p; rerr := rerr p |},
         ReadsToEnd, (len b, None))
    | ReadsThenCloses reads cerr => write_loop reads cerr p b true 0
    end.

(** [io.ReadAll] on a reader that delivers [data] and then ends with the
    error [term]: it returns the data, and the error unless it is [EOF],
    [if err == EOF { err = nil }]. *)
Definition ReadAll (data : list byte) (term : error) : list byte * option error :=
  (data, match term with EOF => None | _ => Some term end).

(** [pr.Read] on a pipe with no write in progress: it blocks ([None]) while
    the pipe is open and returns [readCloseError] once it is closed. *)
Definition Read (p : pipe) : option error :=
  if done p then Some (readCloseError p) else None.

End io.

(** ** package net/http: header maps *)

Module http.

Definition StatusOK : Z := 200.
Definition StatusInternalServerError : Z := 500.

(** [http.Header] is [map[string][]string]. *)
Abbreviation Header := (gmap string (list string)).

Definition is_lower (c : ascii) : bool := (97 <=? byte_val c) && (byte_val c <=? 122).
Definition is_upper (c : ascii) : bool := (65 <=? byte_val c) && (byte_val c <=? 90).
Definition is_digit (c : ascii) : bool := (48 <=? byte_val c) && (byte_val c <=? 57).

(** [validHeaderFieldByte]: the token characters of RFC 7230. *)
Definition validHeaderFieldByte (c : ascii) : bool :=
  is_lower c || is_upper c || is_digit c
  || existsb (Ascii.eqb c)
       (list_ascii_of_string "!#$%&'*+-.^_`|~").

Definition toLower : Z := 32.

(** The second loop of [canonicalMIMEHeaderKey]: upper case for the first
    letter and after each dash, lower case elsewhere. *)
Fixpoint canonical_loop (upper : bool) (s : string) : string :=
  match s with
  | EmptyString => EmptyString
  | String c s' =>
      let c' :=
        if upper && is_lower c then ascii_of_N (Z.to_N (byte_val c - toLower))
        else if negb upper && is_upper c then ascii_of_N (Z.to_N (byte_val c + toLower))
        else c in
      String c' (canonical_loop (Ascii.eqb c' "-"%char) s')
  end.

(** [textproto.CanonicalMIMEHeaderKey]: a key with a byte that is not a token
    character is returned unchanged. *)
Definition CanonicalMIMEHeaderKey (s : string) : string :=
  if forallb validHeaderFieldByte (list_ascii_of_string s)
  then canonical_loop true s
  else s.

(** [Header.Get]: the first value of the canonical key, or the empty string. *)
Definition Header_Get (h : Header) (key : string) : string :=
  match h !! CanonicalMIMEHeaderKey key with
  | Some (v :: _) => v
  | _ => ""
  end.

(** [Header.Set]: the canonical key is bound to the single value. *)
Definition Header_Set (h : Header) (key value : string) : Header :=
  <[CanonicalMIMEHeaderKey key := [value]]> h.

(** [Header.Del]. *)
Definition Header_Del (h : Header) (key : string) : Header :=
  delete (CanonicalMIMEHeaderKey key) h.

(** [mergeSetHeader], by which the transport adds the received trailer fields
    to [Request.Trailer]: [for k, vv := range src { dst[k] = vv }]. *)
Definition mergeSetHeader (dst src : Header) : Header := src ∪ dst.

(** The body of a request on the server: the bytes that are still to be
    read, the error with which its [Read] ends ([EOF] at the clean end of the
    stream, after the last chunk), and the trailer fields that follow the last
    chunk on the wire. *)
Record Body := mkBody {
  unread : list byte;
  term : error;
  wire_trailer : Header;
  closed : bool
}.

(** [http.Request], the fields the program uses.  [Body] is an
    [io.ReadCloser]: the read end of the pipe on the client, the transport's
    body reader on the server. *)
Record Request (B : Type) := mkRequest {
  Method : string;
  URL : string;
  Header_ : Header;
  Body_ : B;
  Trailer : Header
}.
Arguments mkRequest {B} _ _ _ _ _.
Arguments Method {B} _.
Arguments URL {B} _.
Arguments Header_ {B} _.
Arguments Body_ {B} _.
Arguments Trailer {B} _.

(** [http.ResponseWriter]: the status written, the response header map and
    the bytes of the response body written so far. *)
Record ResponseWriter := mkResponseWriter {
  status : option Z;
  wheader : Header;
  written : list byte
}.

Definition newResponseWriter : ResponseWriter :=
  {| status := None; wheader := ∅; written := [] |}.

End http.

(** ** The program *)

Import http.

Definition trailerHeaderName : string := "X-Body-Byte-Length".

(** The lines the program logs with [log.Println] and [log.Printf]. *)
Inductive LogMsg :=
| ServerReceived                                   (* "Server: Received request" *)
| ServerMethod (m : string)                        (* "Server: Request Method: %s" *)
| ServerInitialHeaders                             (* "Server: Initial Request Headers:" *)
| ServerAnnounced (names : string)                 (* "Server: Announced Trailer header names: %s" *)
| ServerReadError (e : error)                      (* "Server: Error reading request body: %v" *)
| ServerReadBody (n : Z) (b : list byte)           (* "Server: Read request body (%d bytes): %s" *)
| ServerTrailerHeaders                             (* "Server: Trailer Headers:" *)
| ServerParseError (s : string) (e : strconv.NumError)
                                                   (* "Server: Could not parse trailer length '%s': %v" *)
| ServerTrailerLength (n : Z)                      (* "Server: Trailer reported body length: %d bytes" *)
| ServerMatch                                      (* "... Integrity check successful!" *)
| ServerMismatch                                   (* "... Data integrity issue!" *)
| ServerNoTrailers                                 (* "Server: No trailer headers received." *)
| ServerWriteError (e : error)                     (* "Server: Error writing response: %v" *)
| ServerSent                                       (* "Server: Sent response" *)
| ClientStartWrite                                 (* "Client: Starting to write body to pipe" *)
| ClientWriteError (e : error)                     (* "Client: Error writing body to pipe: %v" *)
| ClientFinishedWrite.                             (* "Client: Finished writing body to pipe" *)

(** What the program does to the world around it, in the order it does it. *)
Inductive Event :=
| Log (m : LogMsg)
| Printf (name : string) (values : list string)    (* fmt.Printf("  %s: %s\n", name, values) *)
| ReadHeader                                       (* r.Header is read *)
| ReadAllReturned (n : Z) (err : option error)     (* io.ReadAll(r.Body) has returned *)
| ReadTrailer                                      (* r.Trailer is read *)
| WriteHeader (code : Z)                           (* w.WriteHeader(code) *)
| WriteBody (b : list byte) (err : option error)   (* w.Write(b) *)
| BodyClosed                                       (* r.Body.Close() *)
| PipeWrite (b : list byte) (n : Z) (err : option error)   (* pw.Write(b) *)
| PipeClose (err : option error).                  (* pw.CloseWithError(err); pw.Close() for nil *)

(** *** The server *)

(** What the runtime and the network decide: the order in which [range] walks
    a map (Go leaves it unspecified), and the error, if any, with which the
    write of the response fails. *)
Record Runtime := mkRuntime {
  range_header : Header -> list (string * list string);
  range_trailer : Header -> list (string * list string);
  write_error : option error
}.

(** A [range] order is an enumeration of the entries of the map. *)
Definition range_ok (rt : Runtime) : Prop :=
  (forall m, range_header rt m ≡ₚ map_to_list m) /\
  (forall m, range_trailer rt m ≡ₚ map_to_list m).

(** The state a handler invocation works on. *)
Record World := mkWorld {
  request : Request Body;
  writer : ResponseWriter;
  trace : list Event
}.

(** A computation either returns, or panics (an index out of range). *)
Inductive Res (A : Type) :=
| Ret (a : A) (w : World)
| Panic (w : World).
Arguments Ret {A} a w.
Arguments Panic {A} w.

Definition M (A : Type) : Type := World -> Res A.

#[global] Instance M_ret : MRet M := fun A a w => Ret a w.

#[global] Instance M_bind : MBind M := fun A B k m w =>
  match m w with
  | Ret a w' => k a w'
  | Panic w' => Panic w'
  end.

Definition world_of {A} (r : Res A) : World :=
  match r with
  | Ret _ w => w
  | Panic w => w
  end.

Definition panicked {A} (r : Res A) : bool :=
  match r with
  | Ret _ _ => false
  | Panic _ => true
  end.

Definition emit (e : Event) : M unit := fun w =>
  Ret tt {| request := request w; writer := writer w; trace := trace w ++ [e] |}.

Definition log (m : LogMsg) : M unit := emit (Log m).

Definition panic {A} : M A := fun w => Panic w.

(** [defer d] around [m]: [d] runs when [m] returns and when it panics. *)
Definition defer {A} (d : M unit) (m : M A) : M A := fun w =>
  match m w with
  | Ret a w' =>
      match d w' with
      | Ret _ w'' => Ret a w''
      | Panic w'' => Panic w''
      end
  | Panic w' => Panic (world_of (d w'))
  end.

(** [for name, values := range m { body }], in the order the runtime chose. *)
Fixpoint for_range (kvs : list (string * list string))
    (body : string -> list string -> M unit) : M unit :=
  match kvs with
  | [] => mret tt
  | (name, values) :: rest => body name values ;; for_range rest body
  end.

Definition set_request (f : Request Body -> Request Body) : M unit := fun w =>
  Ret tt {| request := f (request w); writer := writer w; trace := trace w |}.

Definition set_writer (f : ResponseWriter -> ResponseWriter) : M unit := fun w =>
  Ret tt {| request := request w; writer := f (writer w); trace := trace w |}.

Definition get_request : M (Request Body) := fun w => Ret (request w) w.

(** [r.Header]. *)
Definition r_Header : M Header :=
  r ← get_request; emit ReadHeader;; mret (Header_ r).

(** [r.Trailer]. *)
Definition r_Trailer : M Header :=
  r ← get_request; emit ReadTrailer;; mret (Trailer r).

(** [http.ErrBodyReadAfterClose]. *)
Definition ErrBodyReadAfterClose : error :=
  ErrOther "http: invalid Read on closed Body".

(** [io.ReadAll(r.Body)]: all the bytes up to the end of the stream, and the
    error that ended it, nil for a clean end.  When the body reader reaches
    the clean end of the stream the transport reads the trailer fields that
    follow it and merges them into [r.Trailer] ([mergeSetHeader]); before
    that, [r.Trailer] has no value from the wire.  A body that was closed
    fails every read. *)
Definition ReadAll_Body : M (list byte * option error) :=
  r ← get_request;
  let b := Body_ r in
  if closed b then
    let res := io.ReadAll [] ErrBodyReadAfterClose in
    emit (ReadAllReturned (len res.1) res.2);; mret res
  else
    let res := io.ReadAll (unread b) (term b) in
    set_request (fun r =>
      {| Method := Method r; URL := URL r; Header_ := Header_ r;
         Body_ := {| unread := []; term := term b;
                     wire_trailer := wire_trailer b; closed := closed b |};
         Trailer := match term b with
                    | EOF => mergeSetHeader (Trailer r) (wire_trailer b)
                    | _ => Trailer r
                    end |});;
    emit (ReadAllReturned (len res.1) res.2);;
    mret res.

(** [r.Body.Close()]. *)
Definition Body_Close : M unit :=
  set_request (fun r =>
    {| Method := Method r; URL := URL r; Header_ := Header_ r;
       Body_ := {| unread := unread (Body_ r); term := term (Body_ r);
                   wire_trailer := wire_trailer (Body_ r); closed := true |};
       Trailer := Trailer r |});;
  emit BodyClosed.

(** [w.WriteHeader(code)]: only the first call sets the status. *)
Definition w_WriteHeader (code : Z) : M unit :=
  set_writer (fun w =>
    {| status := match status w with Some c => Some c | None => Some code end;
       wheader := wheader w; written := written w |});;
  emit (WriteHeader code).

(** [w.Write(b)]: the status defaults to 200; the bytes reach the client
    unless the connection fails. *)
Definition w_Write (rt : Runtime) (b : list byte) : M (Z * option error) :=
  set_writer (fun w =>
    {| status := match status w with Some c => Some c | None => Some StatusOK end;
       wheader := wheader w;
       written := match write_error rt with
                  | None => written w ++ b
                  | Some _ => written w
                  end |});;
  emit (WriteBody b (write_error rt));;
  mret (match write_error rt with None => len b | Some _ => 0 end, write_error rt).

(** [http.Error(w, error, code)]. *)
Definition http_Error (rt : Runtime) (msg : string) (code : Z) : M unit :=
  set_writer (fun w =>
    {| status := status w;
       wheader := Header_Set
                    (Header_Set (Header_Del (wheader w) "Content-Length")
                       "Content-Type" "text/plain; charset=utf-8")
                    "X-Content-Type-Options" "nosniff";
       written := written w |});;
  w_WriteHeader code;;
  _ ← w_Write rt (bytes_of_string (msg +:+ String (ascii_of_nat 10) ""));
  mret tt.

(** [values[i]]: panics when the index is out of range. *)
Definition index (values : list string) (i : nat) : M string :=
  match values !! i with
  | Some v => mret v
  | None => panic
  end.

(** Lines 69-73: the comparison of the declared and the observed length, and
    the line it logs. *)
Definition verify (trailerLength calculatedBodyLength : Z) : LogMsg :=
  if trailerLength =? calculatedBodyLength then ServerMatch else ServerMismatch.

(** Lines 59-75: the body of the loop over [r.Trailer]. *)
Definition processTrailer (calculatedBodyLength : Z)
    (name : string) (values : list string) : M unit :=
  emit (Printf name values);;
  if String.eqb name trailerHeaderName && (0 <? len values) then
    trailerLengthStr ← index values 0;
    match strconv.Atoi trailerLengthStr with
    | strconv.Err cerr => log (ServerParseError trailerLengthStr cerr)
    | strconv.Ok trailerLength =>
        log (ServerTrailerLength trailerLength);;
        log (verify trailerLength calculatedBodyLength)
    end
  else mret tt.

Definition confirmation : string :=
  "Server received your request and processed trailers." +:+ String (ascii_of_nat 10) "".

(** [serverHandler], lines 27-88. *)
Definition serverHandler (rt : Runtime) : M unit :=
  defer Body_Close (
    log ServerReceived;;
    r ← get_request;
    log (ServerMethod (Method r));;
    log ServerInitialHeaders;;
    h ← r_Header;
    for_range (range_header rt h) (fun name values => emit (Printf name values));;
    h ← r_Header;
    let trailerHeaderNames := Header_Get h "Trailer" in
    log (ServerAnnounced trailerHeaderNames);;
    '(body, err) ← ReadAll_Body;
    match err with
    | Some e =>
        log (ServerReadError e);;
        http_Error rt "Error reading request body" StatusInternalServerError
    | None =>
        log (ServerReadBody (len body) body);;
        let calculatedBodyLength := len body in
        log ServerTrailerHeaders;;
        t ← r_Trailer;
        (if 0 <? Z.of_nat (size t) then
           t ← r_Trailer;
           for_range (range_trailer rt t) (processTrailer calculatedBodyLength)
         else log ServerNoTrailers);;
        w_WriteHeader StatusOK;;
        '(_, err) ← w_Write rt (bytes_of_string confirmation);
        match err with
        | Some e => log (ServerWriteError e)
        | None => log ServerSent
        end
    end).

(** One invocation of the handler on a request, with a fresh response writer. *)
Definition handle (rt : Runtime) (r : Request Body) : Res unit :=
  serverHandler rt {| request := r; writer := newResponseWriter; trace := [] |}.

(** What the client gets back: the status and the bytes of the body. *)
Definition response {A} (res : Res A) : option Z * list byte :=
  (status (writer (world_of res)), written (writer (world_of res))).

Definition logged {A} (res : Res A) : list Event := trace (world_of res).

(** *** The client *)

(** The read end [pr] of the pipe, as the body of the client's request. *)
Inductive PipeReader := pr.

Definition requestBodyContent : string := "abcde".

(** [http.NewRequest(method, url, body)]: a request with an empty header map
    and no trailer map. *)
Definition NewRequest {B} (method url : string) (b : B) : Request B :=
  {| Method := method; URL := url; Header_ := ∅; Body_ := b; Trailer := ∅ |}.

(** Lines 107-132 of [main]: the request the client prepares for a body
    content, with the announce header and the trailer value set. *)
Definition clientRequest (requestBodyContent : string) : Request PipeReader :=
  let requestBodyBytes := bytes_of_string requestBodyContent in
  let requestBodyByteLength := len requestBodyBytes in
  let req := NewRequest "POST" "http://localhost:8080" pr in
  let req :=
    {| Method := Method req; URL := URL req;
       Header_ := Header_Set (Header_ req) "Trailer" trailerHeaderName;
       Body_ := Body_ req; Trailer := Trailer req |} in
  let req :=
    {| Method := Method req; URL := URL req; Header_ := Header_ req;
       Body_ := Body_ req; Trailer := ∅ |} in
  {| Method := Method req; URL := URL req; Header_ := Header_ req;
     Body_ := Body_ req;
     Trailer := Header_Set (Trailer req) trailerHeaderName
                  (strconv.Itoa requestBodyByteLength) |}.

(** Lines 139-155 of [main]: the goroutine that writes the body to the write
    end [pw] of the pipe.  It returns the pipe as it leaves it and what it
    did, in order.  [pw.Close()] always returns nil, so the line that logs its
    error is never reached. *)
Definition bodyProducer (rd : io.reader) (p : io.pipe) (requestBodyBytes : list byte)
    : io.pipe * list Event :=
  let '(p1, _, (n, writeErr)) := io.Write rd p requestBodyBytes in
  match writeErr with
  | Some e =>
      (io.closeWrite p1 (Some e),
       [Log ClientStartWrite; PipeWrite requestBodyBytes n writeErr;
        Log (ClientWriteError e); PipeClose (Some e)])
  | None =>
      (io.Close p1,
       [Log ClientStartWrite; PipeWrite requestBodyBytes n writeErr;
        Log ClientFinishedWrite; PipeClose None])
  end.

(** *** The exchange

    The HTTP transport between [client.Do] and the handler is not part of the
    program.  What the program relies on: the transport reads the pipe to its
    end and sends the bytes as the chunked body; after a clean end it sends
    the fields of [req.Trailer]; if the pipe ends with an error the request is
    cut off, and the server's read of the body ends with an error.  The header
    map and the trailer map the server starts from ([seen], [announced]) are
    the transport's. *)
Definition exchange (seen announced : Header) (req : Request PipeReader)
    (p : io.pipe) : Request Body :=
  let clean :=
    match io.Read p with
    | Some EOF => true
    | _ => false
    end in
  {| Method := Method req; URL := URL req; Header_ := seen;
     Body_ := {| unread := io.delivered p;
                 term := if clean then EOF else ErrUnexpectedEOF;
                 wire_trailer := if clean then Trailer req else ∅;
                 closed := false |};
     Trailer := announced |}.

(** The expected trailer field of a trailer map, as far as the handler uses
    it: the first value bound to [trailerHeaderName]. *)
Definition declared (t : Header) : option string :=
  match t !! trailerHeaderName with
  | Some (v :: _) => Some v
  | _ => None
  end.

(** A request as the handler receives it. *)
Definition incoming (h : Header) (b : list byte) (e : error)
    (announced wire : Header) : Request Body :=
  {| Method := "POST"; URL := "/"; Header_ := h;
     Body_ := {| unread := b; term := e; wire_trailer := wire; closed := false |};
     Trailer := announced |}.

(** The runtime that walks maps in the order of [map_to_list]. *)
Definition rt0 : Runtime :=
  {| range_header := map_to_list; range_trailer := map_to_list; write_error := None |}.

(** ** Reading a run of the handler *)

(** The world after more events. *)
Definition add_trace (w : World) (es : list Event) : World :=
  {| request := request w; writer := writer w; trace := trace w ++ es |}.

(** What [io.ReadAll(r.Body)] returns for a request. *)
Definition read_result (r : Request Body) : list byte * option error :=
  if closed (Body_ r)
  then io.ReadAll [] ErrBodyReadAfterClose
  else io.ReadAll (unread (Body_ r)) (term (Body_ r)).

(** The trailer map of a request once its body has been read to a clean end. *)
Definition received_trailer (r : Request Body) : Header :=
  mergeSetHeader (Trailer r) (wire_trailer (Body_ r)).

(** The lines that report the parse of a declared length and the verdict. *)
Definition is_check (e : Event) : bool :=
  match e with
  | Log (ServerParseError _ _) | Log (ServerTrailerLength _)
  | Log ServerMatch | Log ServerMismatch => true
  | _ => false
  end.

Definition is_verdict (e : Event) : bool :=
  match e with
  | Log ServerMatch | Log ServerMismatch => true
  | _ => false
  end.

(** The events of the handler that touch the trailer map or come from it. *)
Definition trailer_phase (e : Event) : bool :=
  match e with
  | ReadTrailer | Log ServerTrailerHeaders | Log ServerNoTrailers => true
  | _ => is_check e
  end.

(** The events by which the handler records the method and the headers. *)
Definition header_phase (e : Event) : bool :=
  match e with
  | ReadHeader | Log ServerReceived | Log (ServerMethod _)
  | Log ServerInitialHeaders | Log (ServerAnnounced _) => true
  | _ => false
  end.

Definition is_ReadAll (e : Event) : bool :=
  match e with
  | ReadAllReturned _ _ => true
  | _ => false
  end.

(** What the handler logs for a declared length [v] against the observed
    length. *)
Definition parse_events (calculatedBodyLength : Z) (v : string) : list Event :=
  match strconv.Atoi v with
  | strconv.Err cerr => [Log (ServerParseError v cerr)]
  | strconv.Ok trailerLength =>
      [Log (ServerTrailerLength trailerLength);
       Log (verify trailerLength calculatedBodyLength)]
  end.

(** What one turn of the loop over the trailer map emits. *)
Definition field_events (calculatedBodyLength : Z) (kv : string * list string)
    : list Event :=
  Printf kv.1 kv.2 ::
  (if String.eqb kv.1 trailerHeaderName then
     match kv.2 with
     | v :: _ => parse_events calculatedBodyLength v
     | [] => []
     end
   else []).

Definition print_event (kv : string * list string) : Event := Printf kv.1 kv.2.

(** The events of a run whose body read has ended cleanly, from the return of
    [io.ReadAll] on. *)
Definition trailer_events (rt : Runtime) (r : Request Body) : list Event :=
  let b := unread (Body_ r) in
  let t := received_trailer r in
  [Log (ServerReadBody (len b) b); Log ServerTrailerHeaders; ReadTrailer]
  ++ (if 0 <? Z.of_nat (size t)
      then ReadTrailer :: flat_map (field_events (len b)) (range_trailer rt t)
      else [Log ServerNoTrailers])
  ++ [WriteHeader StatusOK;
      WriteBody (bytes_of_string confirmation) (write_error rt);
      Log (match write_error rt with
           | Some e => ServerWriteError e
           | None => ServerSent
           end)].

(** The events of a run up to the call of [io.ReadAll]. *)
Definition header_events (rt : Runtime) (r : Request Body) : list Event :=
  [Log ServerReceived; Log (ServerMethod (Method r)); Log ServerInitialHeaders;
   ReadHeader]
  ++ map print_event (range_header rt (Header_ r))
  ++ [ReadHeader; Log (ServerAnnounced (Header_Get (Header_ r) "Trailer"))].

Definition error_message : string :=
  "Error reading request body" +:+ String (ascii_of_nat 10) "".

(** The events of a whole run. *)
Definition server_trace (rt : Runtime) (r : Request Body) : list Event :=
  header_events rt r
  ++ [ReadAllReturned (len (read_result r).1) (read_result r).2]
  ++ match (read_result r).2 with
     | Some e =>
         [Log (ServerReadError e); WriteHeader StatusInternalServerError;
          WriteBody (bytes_of_string error_message) (write_error rt)]
     | None => trailer_events rt r
     end
  ++ [BodyClosed].

(** What the client gets back from a run. *)
Definition server_response (rt : Runtime) (r : Request Body) : option Z * list byte :=
  let sent (msg : string) :=
    match write_error rt with
    | None => bytes_of_string msg
    | Some _ => []
    end in
  match (read_result r).2 with
  | Some _ => (Some StatusInternalServerError, sent error_message)
  | None => (Some StatusOK, sent confirmation)
  end.

(** The calls on the response writer. *)
Definition is_response (e : Event) : bool :=
  match e with
  | WriteHeader _ | WriteBody _ _ => true
  | _ => false
  end.

(** ** More ways to read a run *)

Definition is_printf (e : Event) : bool :=
  match e with
  | Printf _ _ => true
  | _ => false
  end.

Definition is_close (e : Event) : bool :=
  match e with
  | BodyClosed => true
  | _ => false
  end.

(** The two lines that report on the write of the response. *)
Definition is_write_report (e : Event) : bool :=
  match e with
  | Log (ServerWriteError _) | Log ServerSent => true
  | _ => false
  end.

(** The same body and trailers under another method, URL and header map. *)
Definition with_head (r : Request Body) (m u : string) (h : Header) : Request Body :=
  {| Method := m; URL := u; Header_ := h; Body_ := Body_ r; Trailer := Trailer r |}.

(** *** The rest of [main]: sending the request and reading the response *)

(** [http.Response], the fields [main] uses: the status line text and the
    body, a reader that delivers [resp_data] and ends with [resp_term]. *)
Record Response := mkResponse {
  Status : string;
  resp_data : list byte;
  resp_term : error
}.

(** What [client.Do(req)] returns: an error or a response. *)
Inductive DoResult :=
| DoError (e : error)
| DoResponse (resp : Response).

(** The lines the main goroutine logs. *)
Inductive ClientLine :=
| ClientPreparing                              (* "\nClient: Preparing request with trailer" *)
| ClientSending (n : Z) (trailer : Header)     (* "Client: Sending request with body (%d bytes) and Trailer: %v" *)
| ClientSendFailed (e : error)                 (* "Client: Failed to send request: %v", fatal *)
| ClientStatus (status : string)               (* "Client: Received response with status: %s" *)
| ClientReadError (e : error)                  (* "Client: Error reading response body: %v" *)
| ClientResponseBody (b : list byte)           (* "Client: Server response body: %s" *)
| ClientFinished.                              (* "Client: Finished" *)

(** What the main goroutine does, in order. *)
Inductive MainEvent :=
| MLog (l : ClientLine)
| MGoProducer                                  (* go func() { ... }(), line 139 *)
| MDo (req : Request PipeReader)               (* client.Do(req) *)
| MResponseBodyClosed                          (* the deferred resp.Body.Close() *)
| MExit (code : Z).                            (* os.Exit, from log.Fatalf *)

(** Lines 105-174 of [main], the main goroutine from the first client log
    line on, for a body content and for what [client.Do] returns.
    [log.Fatalf] logs and exits with status 1 without running the deferred
    calls; [http.NewRequest] does not fail for the method and the URL given. *)
Definition main_client (requestBodyContent : string)
    (Do : Request PipeReader -> DoResult) : list MainEvent :=
  let requestBodyBytes := bytes_of_string requestBodyContent in
  let requestBodyByteLength := len requestBodyBytes in
  let req := clientRequest requestBodyContent in
  [MLog ClientPreparing;
   MLog (ClientSending requestBodyByteLength (Trailer req));
   MGoProducer; MDo req]
  ++ match Do req with
     | DoError err => [MLog (ClientSendFailed err); MExit 1]
     | DoResponse resp =>
         MLog (ClientStatus (Status resp))
         :: match io.ReadAll (resp_data resp) (resp_term resp) with
            | (_, Some err) => [MLog (ClientReadError err)]
            | (responseBody, None) => [MLog (ClientResponseBody responseBody)]
            end
         ++ [MLog ClientFinished; MResponseBodyClosed]
     end.

(** [http.StatusText] for the two codes the handler writes. *)
Definition StatusText (code : Z) : string :=
  if code =? 200 then "OK"
  else if code =? 500 then "Internal Server Error"
  else "".

(** The transport on the way back, when the write of the response has not
    failed: the client gets the status line of the code written and the bytes
    written, up to a clean end. *)
Definition reply (w : ResponseWriter) : Response :=
  let code := default StatusOK (status w) in
  {| Status := strconv.Itoa code +:+ " " +:+ StatusText code;
     resp_data := written w;
     resp_term := EOF |}.

(** One run of the program, with a transport that reads the pipe to its end:
    the producer, the exchange, the handler, and the main goroutine with what
    comes back: the handler's response, or an error when the connection has
    failed under the response.  It returns what the handler did and what the
    main goroutine did. *)
Definition main_run (rt : Runtime) (seen announced : Header)
    (requestBodyContent : string) : list Event * list MainEvent :=
  let p := (bodyProducer io.ReadsToEnd io.Pipe (bytes_of_string requestBodyContent)).1 in
  let served req := handle rt (exchange seen announced req p) in
  (logged (served (clientRequest requestBodyContent)),
   main_client requestBodyContent
     (fun req =>
        match write_error rt with
        | None => DoResponse (reply (writer (world_of (served req))))
        | Some err => DoError err
        end)).

Definition is_no_trailers (e : Event) : bool :=
  match e with
  | Log ServerNoTrailers => true
  | _ => false
  end.

(** The runtime with the same [range] orders and another fate of the write of
    the response. *)
Definition with_write_error (rt : Runtime) (e : option error) : Runtime :=
  {| range_header := range_header rt; range_trailer := range_trailer rt;
     write_error := e |}.

(** * Properties *)

(** ** Machine integers *)

Lemma wrap_id z : GoInt.in_range z -> GoInt.wrap z = z.
Proof.
  unfold GoInt.in_range, GoInt.wrap, GoInt.minInt, GoInt.maxInt. intros H.
  rewrite Z.mod_small; lia.
Qed.

Lemma wrapU_id z : 0 <= z <= GoInt.maxUint64 -> GoInt.wrapU z = z.
Proof. unfold GoInt.wrapU, GoInt.maxUint64. intros H. apply Z.mod_small. lia. Qed.

(** ** strconv: [Atoi] reads back what [Itoa] writes *)

Section strconv_facts.
Import strconv.

Lemma byte_val_digit d : 0 <= d <= 9 -> byte_val (digit d) = 48 + d.
Proof.
  intros H.
  assert (Hd : d = 0 \/ d = 1 \/ d = 2 \/ d = 3 \/ d = 4 \/ d = 5 \/ d = 6
               \/ d = 7 \/ d = 8 \/ d = 9) by lia.
  repeat (destruct Hd as [-> | Hd]; [reflexivity |]). subst d. reflexivity.
Qed.

Lemma byte_val_range c : 0 <= byte_val c <= 255.
Proof.
  unfold byte_val. pose proof (N_ascii_bounded c) as H. lia.
Qed.

Lemma formatBits_digits fuel : forall us acc,
  0 <= us -> digits_only acc = true -> digits_only (formatBits fuel us acc) = true.
Proof.
  induction fuel as [| fuel IH]; intros us acc Hus Hacc; simpl.
  - destruct (Z.ltb_spec us 10); simpl.
    + rewrite byte_val_digit by lia. rewrite Hacc.
      replace (48 <=? 48 + us) with true by (symmetry; apply Z.leb_le; lia).
      replace (48 + us <=? 57) with true by (symmetry; apply Z.leb_le; lia).
      reflexivity.
    + pose proof (Z.mod_pos_bound us 10 ltac:(lia)).
      rewrite byte_val_digit by lia. rewrite Hacc.
      replace (48 <=? 48 + us mod 10) with true by (symmetry; apply Z.leb_le; lia).
      replace (48 + us mod 10 <=? 57) with true by (symmetry; apply Z.leb_le; lia).
      reflexivity.
  - destruct (Z.ltb_spec us 10).
    + simpl. rewrite byte_val_digit by lia. rewrite Hacc.
      replace (48 <=? 48 + us) with true by (symmetry; apply Z.leb_le; lia).
      replace (48 + us <=? 57) with true by (symmetry; apply Z.leb_le; lia).
      reflexivity.
    + pose proof (Z.mod_pos_bound us 10 ltac:(lia)).
      apply IH; [apply Z.div_pos; lia |].
      simpl. rewrite byte_val_digit by lia. rewrite Hacc.
      replace (48 <=? 48 + us mod 10) with true by (symmetry; apply Z.leb_le; lia).
      replace (48 + us mod 10 <=? 57) with true by (symmetry; apply Z.leb_le; lia).
      reflexivity.
Qed.

Lemma formatBits_value fuel : forall us acc,
  0 <= us < 10 ^ Z.of_nat (S fuel) ->
  decimal_value (formatBits fuel us acc) 0 = decimal_value acc us.
Proof.
  induction fuel as [| fuel IH]; intros us acc Hus.
  - change (10 ^ Z.of_nat 1) with 10 in Hus. simpl.
    destruct (Z.ltb_spec us 10); [| lia].
    simpl. rewrite byte_val_digit by lia. f_equal. lia.
  - cbn [formatBits]. destruct (Z.ltb_spec us 10).
    + simpl. rewrite byte_val_digit by lia. f_equal. lia.
    + pose proof (Z.mod_pos_bound us 10 ltac:(lia)).
      rewrite IH.
      * simpl. rewrite byte_val_digit by lia. f_equal.
        pose proof (Z.div_mod us 10 ltac:(lia)). lia.
      * split; [apply Z.div_pos; lia |].
        apply Z.div_lt_upper_bound; [lia |].
        replace (Z.of_nat (S (S fuel))) with (Z.succ (Z.of_nat (S fuel))) in Hus by lia.
        rewrite Z.pow_succ_r in Hus by lia. lia.
Qed.

Lemma formatBits_nonempty fuel us acc : formatBits fuel us acc <> EmptyString.
Proof.
  revert us acc. induction fuel as [| fuel IH]; intros us acc; simpl.
  - destruct (us <? 10); discriminate.
  - destruct (us <? 10); [discriminate | apply IH].
Qed.

Lemma decimal_value_mono s : forall n,
  digits_only s = true -> 0 <= n -> n <= decimal_value s n.
Proof.
  induction s as [| c s IH]; intros n Hs Hn; simpl in *; [lia |].
  apply andb_prop in Hs as [Hc Hs]. apply andb_prop in Hc as [H1 H2].
  apply Z.leb_le in H1, H2.
  specialize (IH (n * 10 + (byte_val c - 48)) Hs ltac:(lia)). lia.
Qed.

Lemma atoi_fast_loop_digits s : forall n,
  digits_only s = true -> 0 <= n -> decimal_value s n <= GoInt.maxInt ->
  atoi_fast_loop s n = Ok (decimal_value s n).
Proof.
  induction s as [| c s IH]; intros n Hs Hn Hv; simpl in *; [reflexivity |].
  apply andb_prop in Hs as [Hc Hs]. apply andb_prop in Hc as [H1 H2].
  apply Z.leb_le in H1, H2.
  assert (Hd : sub0 c = byte_val c - 48).
  { unfold sub0. apply Z.mod_small. lia. }
  rewrite Hd. destruct (Z.ltb_spec 9 (byte_val c - 48)); [lia |].
  pose proof (decimal_value_mono s (n * 10 + (byte_val c - 48)) Hs ltac:(lia)).
  rewrite wrap_id.
  - apply IH; [assumption | lia | assumption].
  - unfold GoInt.in_range, GoInt.minInt. lia.
Qed.

Lemma parseUint_loop_digits s : forall n,
  digits_only s = true -> 0 <= n -> decimal_value s n <= GoInt.maxUint64 ->
  parseUint_loop s n = Ok (decimal_value s n).
Proof.
  induction s as [| c s IH]; intros n Hs Hn Hv; simpl in *; [reflexivity |].
  apply andb_prop in Hs as [Hc Hs]. rewrite Hc.
  apply andb_prop in Hc as [H1 H2]. apply Z.leb_le in H1, H2. simpl.
  pose proof (decimal_value_mono s (n * 10 + (byte_val c - 48)) Hs ltac:(lia)) as Hm.
  assert (Hmax : GoInt.maxUint64 = 18446744073709551615) by reflexivity.
  assert (Hcut : cutoff = 1844674407370955162) by reflexivity.
  destruct (Z.leb_spec cutoff n); [lia |].
  rewrite (wrapU_id (n * 10)) by lia.
  rewrite (wrapU_id (n * 10 + (byte_val c - 48))) by lia.
  destruct (Z.ltb_spec (n * 10 + (byte_val c - 48)) (n * 10)); [lia |].
  destruct (Z.ltb_spec GoInt.maxUint64 (n * 10 + (byte_val c - 48))); [lia |].
  simpl. apply IH; [assumption | lia | assumption].
Qed.

Lemma digits_only_not_sign c s :
  digits_only (String c s) = true -> is_sign c = false /\ is_minus c = false.
Proof.
  simpl. intros H. apply andb_prop in H as [Hc _].
  apply andb_prop in Hc as [H1 H2]. apply Z.leb_le in H1, H2.
  unfold is_sign, is_minus.
  destruct (Z.eqb_spec (byte_val c) 45); [lia |].
  destruct (Z.eqb_spec (byte_val c) 43); [lia |]. split; reflexivity.
Qed.

(** A non-empty string of digits whose value fits an [int] parses to that
    value, on the fast path and on the slow path alike. *)
Lemma Atoi_digits s :
  s <> EmptyString -> digits_only s = true ->
  decimal_value s 0 <= GoInt.maxInt ->
  Atoi s = Ok (decimal_value s 0).
Proof.
  intros Hne Hs Hv. destruct s as [| c s]; [congruence |].
  destruct (digits_only_not_sign c s Hs) as [Hsg Hmi].
  unfold Atoi.
  destruct ((0 <? Z.of_nat (String.length (String c s)))
            && (Z.of_nat (String.length (String c s)) <? 19)).
  - rewrite Hsg, Hmi. cbn [andb].
    rewrite atoi_fast_loop_digits; [reflexivity | assumption | lia | assumption].
  - unfold ParseInt. rewrite Hsg, Hmi. unfold ParseUint.
    rewrite parseUint_loop_digits;
      [| assumption | lia | unfold GoInt.maxInt, GoInt.maxUint64 in *; lia].
    simpl negb. cbn [andb].
    assert (Hcut : 2 ^ (GoInt.intSize - 1) = GoInt.maxInt + 1) by reflexivity.
    destruct (Z.leb_spec (2 ^ (GoInt.intSize - 1)) (decimal_value (String c s) 0));
      [lia | reflexivity].
Qed.

(** [Itoa] of a non-negative [int] is its decimal text. *)
Lemma Itoa_decimal n :
  0 <= n <= GoInt.maxInt ->
  Itoa n <> EmptyString /\ digits_only (Itoa n) = true /\ decimal_value (Itoa n) 0 = n.
Proof.
  intros Hn. unfold Itoa. destruct (Z.ltb_spec n 0); [lia |].
  split; [apply formatBits_nonempty |].
  split; [apply formatBits_digits; [lia | reflexivity] |].
  rewrite formatBits_value; [reflexivity |].
  unfold GoInt.maxInt in Hn. split; [lia |].
  assert (2 ^ 63 < 10 ^ Z.of_nat 21) by (vm_compute; reflexivity). lia.
Qed.

Lemma Atoi_Itoa n : 0 <= n <= GoInt.maxInt -> Atoi (Itoa n) = Ok n.
Proof.
  intros Hn. destruct (Itoa_decimal n Hn) as (Hne & Hd & Hv).
  rewrite Atoi_digits; [congruence | assumption | assumption | lia].
Qed.

Lemma atoi_fast_loop_nondigit s : forall n,
  digits_only s = false -> atoi_fast_loop s n = Err ErrSyntax.
Proof.
  induction s as [| c s IH]; intros n Hs; simpl in *; [discriminate |].
  pose proof (byte_val_range c) as Hc. unfold sub0.
  destruct (Z.leb_spec 48 (byte_val c)); simpl in Hs.
  - destruct (Z.leb_spec (byte_val c) 57); simpl in Hs.
    + rewrite Z.mod_small by lia.
      destruct (Z.ltb_spec 9 (byte_val c - 48)); [lia |]. by apply IH.
    + rewrite Z.mod_small by lia.
      destruct (Z.ltb_spec 9 (byte_val c - 48)); [reflexivity | lia].
  - replace ((byte_val c - 48) mod 256) with (byte_val c + 208).
    + destruct (Z.ltb_spec 9 (byte_val c + 208)); [reflexivity | lia].
    + apply (Z.mod_unique_pos _ _ (-1)); lia.
Qed.

Lemma decimal_value_bound s : forall n,
  digits_only s = true -> 0 <= n ->
  decimal_value s n < (n + 1) * 10 ^ Z.of_nat (String.length s).
Proof.
  induction s as [| c s IH]; intros n Hs Hn; simpl String.length; simpl in Hs.
  - simpl. lia.
  - apply andb_prop in Hs as [Hc Hs]. apply andb_prop in Hc as [H1 H2].
    apply Z.leb_le in H1, H2. cbn [decimal_value].
    specialize (IH (n * 10 + (byte_val c - 48)) Hs ltac:(lia)).
    rewrite Nat2Z.inj_succ, Z.pow_succ_r by lia.
    assert (0 < 10 ^ Z.of_nat (String.length s)) by (apply Z.pow_pos_nonneg; lia).
    nia.
Qed.

(** [parseUint_loop] returns the value of a string of digits that fits a
    [uint64], and an error for everything else. *)
Lemma parseUint_loop_spec s : forall n,
  0 <= n <= GoInt.maxUint64 ->
  match parseUint_loop s n with
  | Ok v => digits_only s = true /\ v = decimal_value s n /\ v <= GoInt.maxUint64
  | Err _ => digits_only s = false \/ GoInt.maxUint64 < decimal_value s n
  end.
Proof.
  assert (Hmax : GoInt.maxUint64 = 18446744073709551615) by reflexivity.
  assert (Hcut : cutoff = 1844674407370955162) by reflexivity.
  induction s as [| c s IH]; intros n Hn; cbn [parseUint_loop digits_only decimal_value].
  - split; [reflexivity |]. split; [reflexivity | lia].
  - destruct ((48 <=? byte_val c) && (byte_val c <=? 57)) eqn:Hc; [| by left].
    apply andb_prop in Hc as [H1 H2]. apply Z.leb_le in H1, H2. cbn [andb].
    assert (Hover : GoInt.maxUint64 < n * 10 + (byte_val c - 48) ->
                    digits_only s = false
                    \/ GoInt.maxUint64 < decimal_value s (n * 10 + (byte_val c - 48))).
    { intros Hlt. destruct (digits_only s) eqn:Hs; [right | by left].
      pose proof (decimal_value_mono s (n * 10 + (byte_val c - 48)) Hs ltac:(lia)). lia. }
    destruct (Z.leb_spec cutoff n); [apply Hover; lia |].
    rewrite (wrapU_id (n * 10)) by lia.
    destruct (Z.le_gt_cases (n * 10 + (byte_val c - 48)) GoInt.maxUint64) as [Hfit | Hbig].
    + rewrite (wrapU_id (n * 10 + (byte_val c - 48))) by lia.
      destruct (Z.ltb_spec (n * 10 + (byte_val c - 48)) (n * 10)); [lia |].
      destruct (Z.ltb_spec GoInt.maxUint64 (n * 10 + (byte_val c - 48))); [lia |].
      cbn [orb]. apply IH. lia.
    + assert (Hw : GoInt.wrapU (n * 10 + (byte_val c - 48))
                   = n * 10 + (byte_val c - 48) - 2 ^ 64).
      { unfold GoInt.wrapU. symmetry. apply (Z.mod_unique_pos _ _ 1); lia. }
      rewrite Hw.
      destruct (Z.ltb_spec (n * 10 + (byte_val c - 48) - 2 ^ 64) (n * 10)); [| lia].
      cbn [orb]. by apply Hover.
Qed.

(** [Atoi] accepts exactly the base-10 integers with an optional sign that
    fit an [int], and returns the number they denote. *)
Lemma Atoi_spec s :
  match Atoi s with
  | Ok n => signed_decimal s = Some n
  | Err _ => signed_decimal s = None
  end.
Proof.
  assert (Hmax : GoInt.maxInt = 9223372036854775807) by reflexivity.
  assert (Hmin : GoInt.minInt = -9223372036854775808) by reflexivity.
  assert (HmaxU : GoInt.maxUint64 = 18446744073709551615) by reflexivity.
  assert (Hcut : 2 ^ (GoInt.intSize - 1) = 9223372036854775808) by reflexivity.
  unfold Atoi, signed_decimal.
  destruct ((0 <? Z.of_nat (String.length s)) && (Z.of_nat (String.length s) <? 19)) eqn:Hlen.
  - (* the fast path *)
    apply andb_prop in Hlen as [Hl1 Hl2]. apply Z.ltb_lt in Hl1, Hl2.
    destruct s as [| c0 rest]; [reflexivity |].
    set (s1 := if is_sign c0 then rest else String c0 rest).
    assert (Hs1 : Z.of_nat (String.length s1) <= 18).
    { subst s1. destruct (is_sign c0); simpl String.length in *; lia. }
    destruct s1 as [| c1 s1'] eqn:Es1.
    { subst s1. destruct (is_sign c0); [reflexivity | discriminate]. }
    destruct (Z.ltb_spec (Z.of_nat (String.length (String c1 s1'))) 1) as [Hl | _];
      [simpl String.length in Hl; lia |].
    rewrite andb_false_r.
    destruct (digits_only (String c1 s1')) eqn:Hd.
    + pose proof (decimal_value_bound _ 0 Hd ltac:(lia)) as Hb.
      pose proof (decimal_value_mono _ 0 Hd ltac:(lia)) as Hm.
      assert (Hp : 10 ^ Z.of_nat (String.length (String c1 s1')) <= 10 ^ 18)
        by (apply Z.pow_le_mono_r; lia).
      assert (H18 : 10 ^ 18 = 1000000000000000000) by reflexivity.
      rewrite atoi_fast_loop_digits by (try assumption; lia).
      destruct (is_minus c0).
      * rewrite wrap_id by (unfold GoInt.in_range; lia).
        destruct (Z.leb_spec GoInt.minInt (- decimal_value (String c1 s1') 0)); [| lia].
        destruct (Z.leb_spec (- decimal_value (String c1 s1') 0) GoInt.maxInt); [| lia].
        reflexivity.
      * destruct (Z.leb_spec GoInt.minInt (decimal_value (String c1 s1') 0)); [| lia].
        destruct (Z.leb_spec (decimal_value (String c1 s1') 0) GoInt.maxInt); [| lia].
        reflexivity.
    + by rewrite atoi_fast_loop_nondigit.
  - (* the slow path *)
    clear Hlen. unfold ParseInt.
    destruct s as [| c0 rest]; [reflexivity |].
    set (s1 := if is_sign c0 then rest else String c0 rest).
    unfold ParseUint.
    destruct s1 as [| c1 s1'] eqn:Es1; [reflexivity |].
    pose proof (parseUint_loop_spec (String c1 s1') 0 ltac:(lia)) as Hspec.
    destruct (parseUint_loop (String c1 s1') 0) as [v | e].
    + destruct Hspec as (Hd & Hv & Hle). rewrite Hd. rewrite <- Hv.
      pose proof (decimal_value_mono _ 0 Hd ltac:(lia)) as Hm. rewrite <- Hv in Hm.
      rewrite Hcut.
      destruct (is_minus c0); cbn [negb andb].
      * destruct (Z.ltb_spec 9223372036854775808 v).
        -- destruct (Z.leb_spec GoInt.minInt (- v)); [lia | reflexivity].
        -- destruct (Z.leb_spec GoInt.minInt (- v)); [| lia].
           destruct (Z.leb_spec (- v) GoInt.maxInt); [reflexivity | lia].
      * destruct (Z.leb_spec 9223372036854775808 v).
        -- destruct (Z.leb_spec GoInt.minInt v); [| lia].
           destruct (Z.leb_spec v GoInt.maxInt); [lia | reflexivity].
        -- destruct (Z.leb_spec GoInt.minInt v); [| lia].
           destruct (Z.leb_spec v GoInt.maxInt); [reflexivity | lia].
    + destruct Hspec as [Hd | Hbig]; [by rewrite Hd |].
      destruct (digits_only (String c1 s1')); [| reflexivity].
      destruct (is_minus c0).
      * destruct (Z.leb_spec GoInt.minInt (- decimal_value (String c1 s1') 0));
          [lia | reflexivity].
      * destruct (Z.leb_spec GoInt.minInt (decimal_value (String c1 s1') 0));
          [| reflexivity].
        destruct (Z.leb_spec (decimal_value (String c1 s1') 0) GoInt.maxInt);
          [lia | reflexivity].
Qed.

End strconv_facts.

Example Itoa_5 : strconv.Itoa 5 = "5".
Proof. reflexivity. Qed.

Example Itoa_maxInt : strconv.Itoa GoInt.maxInt = "9223372036854775807".
Proof. reflexivity. Qed.

Example Itoa_negative : strconv.Itoa (-120) = "-120".
Proof. reflexivity. Qed.

Example Atoi_5 : strconv.Atoi "5" = strconv.Ok 5.
Proof. reflexivity. Qed.

Example Atoi_maxInt : strconv.Atoi "9223372036854775807" = strconv.Ok GoInt.maxInt.
Proof. reflexivity. Qed.

Example Atoi_out_of_range :
  strconv.Atoi "9223372036854775808" = strconv.Err strconv.ErrRange.
Proof. reflexivity. Qed.

Example Atoi_minInt : strconv.Atoi "-9223372036854775808" = strconv.Ok GoInt.minInt.
Proof. reflexivity. Qed.

Example Atoi_plus : strconv.Atoi "+5" = strconv.Ok 5.
Proof. reflexivity. Qed.

Example Atoi_letters : strconv.Atoi "abc" = strconv.Err strconv.ErrSyntax.
Proof. reflexivity. Qed.

Example Atoi_empty : strconv.Atoi "" = strconv.Err strconv.ErrSyntax.
Proof. reflexivity. Qed.

Example Atoi_bare_sign : strconv.Atoi "-" = strconv.Err strconv.ErrSyntax.
Proof. reflexivity. Qed.

Example Atoi_space : strconv.Atoi " 5" = strconv.Err strconv.ErrSyntax.
Proof. reflexivity. Qed.

(** ** The handler, run *)

Lemma bind_run {A B} (m : M A) (k : A -> M B) (w : World) :
  (m ≫= k) w = match m w with Ret a w' => k a w' | Panic w' => Panic w' end.
Proof. reflexivity. Qed.

Lemma add_trace_app w es1 es2 :
  add_trace (add_trace w es1) es2 = add_trace w (es1 ++ es2).
Proof. unfold add_trace; simpl. by rewrite <- app_assoc. Qed.

Lemma add_trace_nil w : add_trace w [] = w.
Proof. destruct w. unfold add_trace; simpl. by rewrite app_nil_r. Qed.

Lemma emit_run e w : emit e w = Ret tt (add_trace w [e]).
Proof. reflexivity. Qed.

Lemma for_range_print kvs : forall w,
  for_range kvs (fun name values => emit (Printf name values)) w
  = Ret tt (add_trace w (map print_event kvs)).
Proof.
  induction kvs as [| [name values] kvs IH]; intros w; simpl.
  - by rewrite add_trace_nil.
  - rewrite bind_run, emit_run, IH, add_trace_app. reflexivity.
Qed.

Lemma processTrailer_run L name values w :
  processTrailer L name values w = Ret tt (add_trace w (field_events L (name, values))).
Proof.
  unfold processTrailer, field_events, parse_events. simpl.
  rewrite bind_run, emit_run.
  destruct (String.eqb name trailerHeaderName); simpl.
  - destruct values as [| v vs]; simpl; [reflexivity |].
    replace (0 <? len (v :: vs)) with true
      by (symmetry; apply Z.ltb_lt; unfold len; simpl; lia).
    rewrite bind_run. simpl.
    destruct (strconv.Atoi v) as [n | e].
    + rewrite bind_run. unfold log. rewrite !emit_run, !add_trace_app. reflexivity.
    + unfold log. rewrite emit_run, add_trace_app. reflexivity.
  - reflexivity.
Qed.

Lemma for_range_processTrailer L kvs : forall w,
  for_range kvs (processTrailer L) w
  = Ret tt (add_trace w (flat_map (field_events L) kvs)).
Proof.
  induction kvs as [| [name values] kvs IH]; intros w; simpl.
  - by rewrite add_trace_nil.
  - rewrite bind_run, processTrailer_run, IH, add_trace_app. reflexivity.
Qed.

Ltac run_step :=
  first [ rewrite bind_run | rewrite for_range_print
        | rewrite for_range_processTrailer ];
  cbn -[bytes_of_string confirmation error_message Z.ltb len size].

Lemma handle_run rt r :
  exists w, handle rt r = Ret tt w
            /\ trace w = server_trace rt r
            /\ (status (writer w), written (writer w)) = server_response rt r.
Proof.
  destruct r as [m u h [b e wt c] t].
  unfold handle, serverHandler, defer, server_trace, server_response, read_result,
    header_events, trailer_events, received_trailer.
  unfold http_Error, w_Write, w_WriteHeader, Body_Close, ReadAll_Body, r_Trailer,
    r_Header, log, io.ReadAll, ErrBodyReadAfterClose.
  cbn -[bytes_of_string confirmation error_message Z.ltb len size].
  destruct c; [| destruct e as [| | | msg]].
  - repeat run_step. eexists. split; [reflexivity |]. cbn.
    split; [| reflexivity]. repeat (f_equal; []). by rewrite <- !app_assoc.
  - repeat run_step.
    destruct (0 <? Z.of_nat (size (wt ∪ t)));
      destruct (write_error rt) as [e |];
      repeat run_step; (eexists; split; [reflexivity |]; cbn;
      split; [| reflexivity]; repeat (f_equal; []); by rewrite <- ?app_assoc).
  - repeat run_step. eexists. split; [reflexivity |]. cbn.
    split; [| reflexivity]. repeat (f_equal; []). by rewrite <- !app_assoc.
  - repeat run_step. eexists. split; [reflexivity |]. cbn.
    split; [| reflexivity]. repeat (f_equal; []). by rewrite <- !app_assoc.
  - repeat run_step. eexists. split; [reflexivity |]. cbn.
    split; [| reflexivity]. repeat (f_equal; []). by rewrite <- !app_assoc.
Qed.

Lemma handle_logged rt r : logged (handle rt r) = server_trace rt r.
Proof.
  destruct (handle_run rt r) as (w & Hw & Ht & _). unfold logged. by rewrite Hw.
Qed.

Lemma handle_response rt r : response (handle rt r) = server_response rt r.
Proof.
  destruct (handle_run rt r) as (w & Hw & _ & Hr). unfold response. by rewrite Hw.
Qed.

Lemma handle_returns rt r : panicked (handle rt r) = false.
Proof.
  destruct (handle_run rt r) as (w & Hw & _). by rewrite Hw.
Qed.

(** ** The loop over the trailer map *)

(** The lines about the declared length that one field contributes. *)
Lemma field_checks L kv :
  List.filter is_check (field_events L kv)
  = if String.eqb kv.1 trailerHeaderName then
      match kv.2 with
      | v :: _ => parse_events L v
      | [] => []
      end
    else [].
Proof.
  unfold field_events. simpl.
  destruct (String.eqb kv.1 trailerHeaderName); [| reflexivity].
  destruct kv.2 as [| v vs]; [reflexivity |].
  unfold parse_events. destruct (strconv.Atoi v); simpl; [| reflexivity].
  unfold verify. by destruct (_ =? _).
Qed.

Lemma filter_flat_map {A B} (p : B -> bool) (f : A -> list B) l :
  List.filter p (flat_map f l) = flat_map (fun a => List.filter p (f a)) l.
Proof.
  induction l as [| a l IH]; simpl; [reflexivity |].
  by rewrite List.filter_app, IH.
Qed.

Lemma flat_map_all_nil {A B} (g : A -> list B) l :
  (forall a, a ∈ l -> g a = []) -> flat_map g l = [].
Proof.
  induction l as [| a l IH]; intros H; simpl; [reflexivity |].
  rewrite (H a) by (left). simpl. apply IH. intros b Hb. apply H. by right.
Qed.

Lemma flat_map_single {V B} (g : string * V -> list B) (k : string) (v : V) l :
  (forall kv, kv.1 <> k -> g kv = []) ->
  NoDup l.*1 -> (k, v) ∈ l -> flat_map g l = g (k, v).
Proof.
  intros Hg. induction l as [| kv l IH]; intros Hnd Hin.
  - by apply elem_of_nil in Hin.
  - rewrite fmap_cons in Hnd. apply NoDup_cons in Hnd as [Hnotin Hnd].
    apply elem_of_cons in Hin as [<- | Hin]; simpl.
    + rewrite (flat_map_all_nil g l); [by rewrite app_nil_r |].
      intros kv' Hkv'. apply Hg. intros Heq. apply Hnotin.
      simpl. rewrite <- Heq. by apply list_elem_of_fmap_2.
    + rewrite Hg; [by apply IH |].
      intros Heq. apply Hnotin. rewrite Heq.
      by apply (list_elem_of_fmap_2 fst l (k, v)).
Qed.

(** Whatever the order of the walk, the lines about the declared length are
    those of the first value of the expected field, if there is one. *)
Lemma range_checks L (t : Header) (kvs : list (string * list string)) :
  kvs ≡ₚ map_to_list t ->
  List.filter is_check (flat_map (field_events L) kvs)
  = match declared t with
    | Some v => parse_events L v
    | None => []
    end.
Proof.
  intros Hp. rewrite filter_flat_map.
  assert (Hnd : NoDup kvs.*1).
  { rewrite Hp. apply NoDup_fst_map_to_list. }
  assert (Hg : forall kv : string * list string,
             kv.1 <> trailerHeaderName ->
             List.filter is_check (field_events L kv) = []).
  { intros kv Hne. rewrite field_checks.
    destruct (String.eqb_spec kv.1 trailerHeaderName); [done | reflexivity]. }
  unfold declared. destruct (t !! trailerHeaderName) as [vs |] eqn:Hl.
  - assert (Hin : (trailerHeaderName, vs) ∈ kvs).
    { rewrite Hp. by apply elem_of_map_to_list. }
    rewrite (flat_map_single _ trailerHeaderName vs kvs Hg Hnd Hin).
    rewrite field_checks. cbn [fst snd]. rewrite String.eqb_refl. by destruct vs.
  - apply flat_map_all_nil. intros [k vs] Hin. apply Hg. simpl.
    intros ->. rewrite Hp in Hin. apply elem_of_map_to_list in Hin. congruence.
Qed.

(** [read_result] is what [io.ReadAll(r.Body)] returns, and the trailer map
    is the received one exactly after a clean end. *)
Lemma ReadAll_Body_run w :
  exists w', ReadAll_Body w = Ret (read_result (request w)) w'
             /\ writer w' = writer w
             /\ trace w' = trace w ++ [ReadAllReturned (len (read_result (request w)).1)
                                         (read_result (request w)).2]
             /\ Trailer (request w')
                = match (read_result (request w)).2 with
                  | None => received_trailer (request w)
                  | Some _ => Trailer (request w)
                  end.
Proof.
  destruct w as [[m u h [b e wt c] t] wr tr].
  unfold ReadAll_Body, read_result, received_trailer.
  rewrite bind_run. cbn. destruct c.
  - rewrite bind_run. cbn. eexists. split; [reflexivity |]. cbn. done.
  - repeat (rewrite bind_run; cbn). eexists. split; [reflexivity |]. cbn.
    by destruct e.
Qed.

Lemma filter_print_nil (p : Event -> bool) (kvs : list (string * list string)) :
  (forall kv, p (print_event kv) = false) ->
  List.filter p (map print_event kvs) = [].
Proof.
  intros Hp. induction kvs as [| kv kvs IH]; simpl; [reflexivity |].
  by rewrite Hp.
Qed.

Lemma size_zero_declared (t : Header) :
  (0 <? Z.of_nat (size t)) = false -> declared t = None.
Proof.
  intros H. apply Z.ltb_ge in H.
  assert (Hs : size t = 0%nat) by lia.
  apply map_size_empty_iff in Hs. subst t. reflexivity.
Qed.

(** The lines about the declared length in a whole run. *)
Lemma handle_checks rt r :
  range_ok rt ->
  List.filter is_check (logged (handle rt r))
  = match (read_result r).2 with
    | Some _ => []
    | None =>
        match declared (received_trailer r) with
        | Some v => parse_events (len (unread (Body_ r))) v
        | None => []
        end
    end.
Proof.
  intros [_ Hrt]. rewrite handle_logged. unfold server_trace, header_events.
  rewrite !List.filter_app. rewrite filter_print_nil by done. cbn [List.filter is_check app].
  destruct (read_result r).2 as [e |]; [reflexivity |].
  unfold trailer_events. rewrite !List.filter_app. cbn [List.filter is_check app].
  destruct (0 <? Z.of_nat (size (received_trailer r))) eqn:Hsz.
  - cbn [List.filter is_check]. rewrite (range_checks _ _ _ (Hrt _)).
    destruct (write_error rt); by rewrite !app_nil_r.
  - rewrite (size_zero_declared _ Hsz). by destruct (write_error rt).
Qed.

Lemma forallb_print (p : Event -> bool) (kvs : list (string * list string)) :
  (forall kv, p (print_event kv) = true) ->
  forallb p (map print_event kvs) = true.
Proof.
  intros Hp. induction kvs as [| kv kvs IH]; simpl; [reflexivity |].
  by rewrite Hp.
Qed.

Lemma forallb_field_events (p : Event -> bool) L kvs :
  (forall name values, p (Printf name values) = true) ->
  (forall s e, p (Log (ServerParseError s e)) = true) ->
  (forall n, p (Log (ServerTrailerLength n)) = true) ->
  p (Log ServerMatch) = true -> p (Log ServerMismatch) = true ->
  forallb p (flat_map (field_events L) kvs) = true.
Proof.
  intros Hprint Herr Hlen Hm Hmm.
  induction kvs as [| [name values] kvs IH]; simpl; [reflexivity |].
  rewrite Hprint. simpl. rewrite forallb_app, IH, andb_true_r.
  destruct (String.eqb name trailerHeaderName); [| reflexivity].
  destruct values as [| v vs]; [reflexivity |].
  unfold parse_events, verify. destruct (strconv.Atoi v) as [n | e]; simpl.
  - rewrite Hlen. by destruct (n =? L); rewrite ?Hm, ?Hmm.
  - by rewrite Herr.
Qed.

(** ** The claims *)

(** C7. The handler works in a strict order: the method and the headers are
    recorded first; then [io.ReadAll] on the body returns, once; everything
    that reads the trailer map or reports on it (the count, the walk, the
    parse, the verdict) comes after that return, and nothing about the headers
    comes after it.  After a clean end of the body the map that is walked is
    the received one, with the fields that followed the body on the wire. *)
Theorem handler_step_order (rt : Runtime) (r : Request Body) :
  exists post,
    logged (handle rt r)
    = header_events rt r
      ++ ReadAllReturned (len (read_result r).1) (read_result r).2 :: post
    /\ In (Log ServerInitialHeaders) (header_events rt r)
    /\ In (Log (ServerAnnounced (Header_Get (Header_ r) "Trailer"))) (header_events rt r)
    /\ forallb (fun e => negb (trailer_phase e || is_ReadAll e)) (header_events rt r) = true
    /\ forallb (fun e => negb (header_phase e || is_ReadAll e)) post = true
    /\ ((read_result r).2 = None -> post = trailer_events rt r ++ [BodyClosed]).
Proof.
  rewrite handle_logged. unfold server_trace. eexists. split; [reflexivity |].
  split; [| split; [| split; [| split; [| by intros ->]]]].
  - unfold header_events. simpl. tauto.
  - unfold header_events. apply in_or_app. right. apply in_or_app. right.
    simpl. tauto.
  - unfold header_events. rewrite !forallb_app. rewrite forallb_print by done.
    reflexivity.
  - destruct (read_result r).2 as [e |]; [reflexivity |].
    unfold trailer_events. rewrite !forallb_app.
    destruct (0 <? Z.of_nat (size (received_trailer r))).
    + cbn [forallb]. rewrite forallb_field_events by done.
      by destruct (write_error rt).
    + by destruct (write_error rt).
Qed.

(** C5. When the read of the body fails, the handler answers 500 with the
    error message, and nothing of the trailer phase happens: the trailer map
    is not read, no value is parsed, no verdict is logged; the 200
    confirmation is not written. *)
Theorem body_read_failure (rt : Runtime) (r : Request Body) (e : error) :
  (read_result r).2 = Some e ->
  let res := handle rt r in
  panicked res = false /\
  (response res).1 = Some StatusInternalServerError /\
  (write_error rt = None -> (response res).2 = bytes_of_string error_message) /\
  List.filter is_response (logged res)
  = [WriteHeader StatusInternalServerError;
     WriteBody (bytes_of_string error_message) (write_error rt)] /\
  List.filter trailer_phase (logged res) = [].
Proof.
  intros He res. subst res.
  rewrite handle_returns, handle_response, handle_logged.
  unfold server_response, server_trace, header_events. rewrite He.
  split; [reflexivity |]. split; [reflexivity |]. split.
  - by intros ->.
  - rewrite !List.filter_app. rewrite !filter_print_nil by done. split; reflexivity.
Qed.

Lemma body_read_failure_witness :
  let res :=
    handle rt0 (incoming ∅ (bytes_of_string "ab") ErrUnexpectedEOF ∅
                  {[ trailerHeaderName := ["5"] ]}) in
  panicked res = false /\
  (response res).1 = Some StatusInternalServerError /\
  (write_error rt0 = None -> (response res).2 = bytes_of_string error_message) /\
  List.filter is_response (logged res)
  = [WriteHeader StatusInternalServerError;
     WriteBody (bytes_of_string error_message) (write_error rt0)] /\
  List.filter trailer_phase (logged res) = [].
Proof.
  apply (body_read_failure rt0 _ ErrUnexpectedEOF). reflexivity.
Defined.

(** C6. When the read of the body succeeds, the handler answers 200 with the
    fixed confirmation, whatever the trailer map holds: two requests that are
    both read to the end get the same response. *)
Theorem success_response_fixed (rt : Runtime) (r r' : Request Body) :
  (read_result r).2 = None ->
  (read_result r').2 = None ->
  let res := handle rt r in
  panicked res = false /\
  (response res).1 = Some StatusOK /\
  (write_error rt = None -> (response res).2 = bytes_of_string confirmation) /\
  List.filter is_response (logged res)
  = [WriteHeader StatusOK; WriteBody (bytes_of_string confirmation) (write_error rt)] /\
  response res = response (handle rt r').
Proof.
  intros He He' res. subst res.
  rewrite handle_returns, !handle_response, handle_logged.
  unfold server_response, server_trace, header_events, trailer_events.
  rewrite He, He'.
  split; [reflexivity |]. split; [reflexivity |]. split; [by intros -> |].
  split; [| reflexivity].
  rewrite !List.filter_app. rewrite !filter_print_nil by done.
  cbn [List.filter is_response app].
  assert (Hf : forall L kvs, List.filter is_response (flat_map (field_events L) kvs) = []).
  { intros L kvs. induction kvs as [| [name values] kvs IH]; simpl; [reflexivity |].
    rewrite List.filter_app, IH, app_nil_r.
    destruct (String.eqb name trailerHeaderName); [| reflexivity].
    destruct values as [| v vs]; [reflexivity |].
    unfold parse_events, verify. destruct (strconv.Atoi v) as [n |]; [| reflexivity].
    simpl. by destruct (n =? L). }
  destruct (0 <? Z.of_nat (size (received_trailer r)));
    cbn [List.filter is_response app]; rewrite ?Hf;
    by destruct (write_error rt).
Qed.

Lemma success_response_fixed_witness :
  let r := incoming ∅ (bytes_of_string "abc") EOF ∅ {[ trailerHeaderName := ["3"] ]} in
  let r' := incoming ∅ (bytes_of_string "abc") EOF ∅ {[ trailerHeaderName := ["x"] ]} in
  let res := handle rt0 r in
  panicked res = false /\
  (response res).1 = Some StatusOK /\
  (write_error rt0 = None -> (response res).2 = bytes_of_string confirmation) /\
  List.filter is_response (logged res)
  = [WriteHeader StatusOK; WriteBody (bytes_of_string confirmation) (write_error rt0)] /\
  response res = response (handle rt0 r').
Proof.
  intros r r'. apply (success_response_fixed rt0 r r'); reflexivity.
Defined.

(** C2. The verification is a function of the declared and the observed
    length alone: the verdict is "match" exactly when the two are equal and
    "mismatch" otherwise, for all integers and so for the non-negative ones;
    and logging the verdict is all it does: the request and the response
    writer are left as they were. *)
Theorem verifier_pure (declared_length observed_length : Z) (w : World) :
  (verify declared_length observed_length = ServerMatch
   <-> declared_length = observed_length) /\
  (verify declared_length observed_length = ServerMismatch
   <-> declared_length <> observed_length) /\
  log (verify declared_length observed_length) w
  = Ret tt {| request := request w; writer := writer w;
              trace := trace w ++ [Log (verify declared_length observed_length)] |} /\
  (forall v vs,
     strconv.Atoi v = strconv.Ok declared_length ->
     processTrailer observed_length trailerHeaderName (v :: vs) w
     = Ret tt {| request := request w; writer := writer w;
                 trace := trace w ++
                   [Printf trailerHeaderName (v :: vs);
                    Log (ServerTrailerLength declared_length);
                    Log (verify declared_length observed_length)] |}).
Proof.
  unfold verify.
  destruct (Z.eqb_spec declared_length observed_length) as [Heq | Hne].
  - split; [tauto |]. split; [split; [discriminate | tauto] |].
    split; [reflexivity |].
    intros v vs Hv. rewrite processTrailer_run.
    unfold field_events, parse_events, verify. cbn [fst snd].
    rewrite String.eqb_refl, Hv.
    destruct (Z.eqb_spec declared_length observed_length); [reflexivity | tauto].
  - split; [split; [discriminate | tauto] |]. split; [tauto |].
    split; [reflexivity |].
    intros v vs Hv. rewrite processTrailer_run.
    unfold field_events, parse_events, verify. cbn [fst snd].
    rewrite String.eqb_refl, Hv.
    destruct (Z.eqb_spec declared_length observed_length); [tauto | reflexivity].
Qed.

(** C10. Of the values bound to the expected name only the first one is
    parsed and verified: what the loop does for [v :: vs] is print the field
    and report on [v], whatever [vs] is, and so does a whole run.  With no
    value bound to the name the field is printed and skipped.  The index
    [values[0]] is never out of range: no run of the handler panics. *)
Theorem first_value_only (rt : Runtime) (r : Request Body) (L : Z)
    (v : string) (vs : list string) (w : World) :
  panicked (handle rt r) = false /\
  processTrailer L trailerHeaderName (v :: vs) w
  = Ret tt (add_trace w (Printf trailerHeaderName (v :: vs) :: parse_events L v)) /\
  processTrailer L trailerHeaderName [] w
  = Ret tt (add_trace w [Printf trailerHeaderName []]) /\
  (range_ok rt -> (read_result r).2 = None ->
   (received_trailer r !! trailerHeaderName = Some (v :: vs) ->
    List.filter is_check (logged (handle rt r))
    = parse_events (len (unread (Body_ r))) v) /\
   (received_trailer r !! trailerHeaderName = Some [] ->
    List.filter is_check (logged (handle rt r)) = [])).
Proof.
  split; [apply handle_returns |].
  rewrite !processTrailer_run. unfold field_events. cbn [fst snd].
  rewrite String.eqb_refl. split; [reflexivity |]. split; [reflexivity |].
  intros Hrt Hread. rewrite (handle_checks rt r Hrt), Hread. unfold declared.
  split; intros ->; reflexivity.
Qed.

Lemma first_value_only_witness :
  let r := incoming ∅ (bytes_of_string "abc") EOF ∅
             {[ trailerHeaderName := ["3"; "7"; "x"] ]} in
  panicked (handle rt0 r) = false /\
  List.filter is_check (logged (handle rt0 r))
  = [Log (ServerTrailerLength 3); Log ServerMatch].
Proof.
  intros r.
  destruct (first_value_only rt0 r 0 "3" ["7"; "x"]
              {| request := r; writer := newResponseWriter; trace := [] |})
    as (Hp & _ & _ & Hrun).
  split; [exact Hp |].
  destruct Hrun as [Hfirst _].
  - split; intros m; reflexivity.
  - reflexivity.
  - rewrite Hfirst; reflexivity.
Defined.

(** ** The client and the exchange *)

Lemma len_bytes_of_string s : len (bytes_of_string s) = len_string s.
Proof.
  unfold len, len_string, bytes_of_string, list_byte_of_string.
  rewrite length_map. f_equal.
  induction s as [| c s IH]; simpl; [reflexivity | by rewrite IH].
Qed.

Lemma canonical_trailerHeaderName :
  CanonicalMIMEHeaderKey trailerHeaderName = trailerHeaderName.
Proof. reflexivity. Qed.

Lemma canonical_Trailer : CanonicalMIMEHeaderKey "Trailer" = "Trailer".
Proof. reflexivity. Qed.

Lemma clientRequest_Trailer content :
  Trailer (clientRequest content)
  = {[ trailerHeaderName := [strconv.Itoa (len (bytes_of_string content))] ]}.
Proof.
  unfold clientRequest, Header_Set. cbn [Trailer].
  rewrite canonical_trailerHeaderName. apply insert_empty.
Qed.

Lemma clientRequest_Header content :
  Header_ (clientRequest content) = {[ "Trailer" := [trailerHeaderName] ]}.
Proof.
  unfold clientRequest, Header_Set, NewRequest. cbn [Header_].
  rewrite canonical_Trailer. apply insert_empty.
Qed.

(** The producer against a reader that reads to the end: the pipe has handed
    over the whole payload and is closed cleanly. *)
Lemma bodyProducer_ReadsToEnd payload :
  (bodyProducer io.ReadsToEnd io.Pipe payload).1
  = {| io.delivered := payload; io.werr := Some EOF; io.rerr := None |}.
Proof. reflexivity. Qed.

(** C9. Before sending, the client sets the announce header [Trailer] to the
    trailer field name [X-Body-Byte-Length], and sets that trailer field to the
    decimal text of the byte length of the body: a non-empty string of digits
    that denotes the length. *)
Theorem client_announces_and_declares (content : string) :
  len_string content <= GoInt.maxInt ->
  let req := clientRequest content in
  let value := strconv.Itoa (len (bytes_of_string content)) in
  trailerHeaderName = "X-Body-Byte-Length" /\
  Header_ req = {[ "Trailer" := ["X-Body-Byte-Length"] ]} /\
  Header_Get (Header_ req) "Trailer" = "X-Body-Byte-Length" /\
  Trailer req = {[ "X-Body-Byte-Length" := [value] ]} /\
  value <> "" /\
  strconv.digits_only value = true /\
  strconv.decimal_value value 0 = len_string content.
Proof.
  intros Hlen req value. subst req value.
  rewrite clientRequest_Header, clientRequest_Trailer, len_bytes_of_string.
  split; [reflexivity |]. split; [reflexivity |]. split; [reflexivity |].
  split; [reflexivity |].
  apply Itoa_decimal. unfold len_string in *. lia.
Qed.

Lemma client_announces_and_declares_witness :
  Header_ (clientRequest requestBodyContent) = {[ "Trailer" := ["X-Body-Byte-Length"] ]} /\
  Trailer (clientRequest requestBodyContent) = {[ "X-Body-Byte-Length" := ["5"] ]}.
Proof.
  destruct (client_announces_and_declares requestBodyContent)
    as (_ & Hh & _ & Ht & _).
  - vm_compute. discriminate.
  - split; [exact Hh | exact Ht].
Defined.

(** C1. For every payload, the empty one included: when the client declares
    the length of the payload in the trailer and the producer streams the
    payload through the pipe to a reader that reads it to the end, the handler
    observes a body of that length, parses the declared length to the same
    number and logs the "match" verdict, and nothing else about the declared
    length. *)
Theorem round_trip_integrity (rt : Runtime) (seen announced : Header) (P : string) :
  range_ok rt ->
  len_string P <= GoInt.maxInt ->
  let requestBodyBytes := bytes_of_string P in
  let p := (bodyProducer io.ReadsToEnd io.Pipe requestBodyBytes).1 in
  let res := handle rt (exchange seen announced (clientRequest P) p) in
  In (Log (ServerReadBody (len_string P) requestBodyBytes)) (logged res) /\
  List.filter is_check (logged res)
  = [Log (ServerTrailerLength (len_string P)); Log ServerMatch].
Proof.
  intros Hrt Hlen bs p res. subst p res.
  rewrite bodyProducer_ReadsToEnd. unfold exchange. cbn [io.Read io.done io.werr io.rerr
    io.readCloseError io.delivered].
  set (r := {| Method := _ |}).
  assert (Hread : read_result r = (bs, None)) by reflexivity.
  split.
  - rewrite handle_logged. unfold server_trace. rewrite Hread. cbn [fst snd].
    apply in_or_app. right. cbn [app]. right. apply in_or_app. left.
    unfold trailer_events. cbn [app]. left. subst r bs. cbn [Body_ unread].
    by rewrite len_bytes_of_string.
  - rewrite (handle_checks rt r Hrt), Hread. cbn [snd].
    assert (Hd : declared (received_trailer r)
                 = Some (strconv.Itoa (len (bytes_of_string P)))).
    { unfold declared, received_trailer, mergeSetHeader. subst r.
      cbn [Body_ wire_trailer Trailer]. rewrite clientRequest_Trailer.
      by rewrite (lookup_union_Some_l _ _ _ _ (lookup_singleton_eq _ _)). }
    rewrite Hd. unfold parse_events. subst r bs. cbn [Body_ unread].
    rewrite len_bytes_of_string.
    rewrite Atoi_Itoa by (unfold len_string in *; lia).
    unfold verify. by rewrite Z.eqb_refl.
Qed.

Lemma round_trip_integrity_witness :
  let requestBodyBytes := bytes_of_string requestBodyContent in
  let p := (bodyProducer io.ReadsToEnd io.Pipe requestBodyBytes).1 in
  let res := handle rt0 (exchange ∅ ∅ (clientRequest requestBodyContent) p) in
  In (Log (ServerReadBody 5 requestBodyBytes)) (logged res) /\
  List.filter is_check (logged res) = [Log (ServerTrailerLength 5); Log ServerMatch].
Proof.
  apply (round_trip_integrity rt0 ∅ ∅ requestBodyContent).
  - split; intros m; reflexivity.
  - vm_compute. discriminate.
Defined.

Example round_trip_empty_payload :
  let res := handle rt0 (exchange ∅ ∅ (clientRequest "")
                           (bodyProducer io.ReadsToEnd io.Pipe []).1) in
  List.filter is_check (logged res) = [Log (ServerTrailerLength 0); Log ServerMatch].
Proof. vm_compute. reflexivity. Qed.

(** ** The pipe and the body producer *)

(** The loop of [pipe.write] on an open pipe: either all of [b] is handed
    over and the pipe is still open, or the reader has closed its end after a
    part of [b], a proper part unless [b] is empty, and the error is the one
    the read end was closed with. *)
Lemma write_loop_spec reads cerr : forall p b once n,
  io.werr p = None -> io.rerr p = None ->
  match io.write_loop reads cerr p b once n with
  | (p', _, (n', None)) =>
      io.delivered p' = io.delivered p ++ b /\ n' = n + len b
      /\ io.werr p' = None /\ io.rerr p' = None
  | (p', _, (n', Some e)) =>
      exists pre,
        pre `prefix_of` b /\ io.delivered p' = io.delivered p ++ pre
        /\ n' = n + len pre
        /\ (len pre < len b \/ (once = true /\ b = []))
        /\ io.werr p' = None /\ io.rerr p' = Some e
        /\ e = default ErrClosedPipe cerr
  end.
Proof.
  induction reads as [| k reads IH]; intros p b once n Hw Hr.
  - cbn [io.write_loop].
    destruct (once || negb (len b =? 0)) eqn:Hc.
    + unfold io.writeCloseError, io.closeRead, io.onceError_Store.
      cbn [io.werr io.rerr io.delivered]. rewrite Hw, Hr.
      exists []. split; [apply prefix_nil |]. split; [by rewrite app_nil_r |].
      split; [unfold len; simpl; lia |].
      split; [| done].
      destruct once; simpl in Hc.
      * destruct b; [by right | left; unfold len; simpl; lia].
      * left. apply negb_true_iff, Z.eqb_neq in Hc. unfold len in *. simpl. lia.
    + apply orb_false_iff in Hc as [_ Hc].
      apply negb_false_iff, Z.eqb_eq in Hc.
      assert (b = []) as -> by (destruct b; [done | unfold len in Hc; simpl in Hc; lia]).
      rewrite app_nil_r. unfold len; simpl. repeat split; [lia | done | done].
  - cbn [io.write_loop].
    destruct (once || negb (len b =? 0)) eqn:Hc.
    + specialize (IH {| io.delivered := io.delivered p ++ take k b;
                        io.werr := io.werr p; io.rerr := io.rerr p |}
                    (drop k b) false (n + len (take k b)) Hw Hr).
      destruct (io.write_loop _ _ _ _ _ _) as [[p' rd'] [n' [e |]]].
      * destruct IH as (pre & Hpre & Hd & Hn & Hlt & Hw' & Hr' & He).
        cbn [io.delivered] in Hd.
        exists (take k b ++ pre). split.
        { rewrite <- (take_drop k b) at 2. by apply prefix_app. }
        split; [by rewrite Hd, app_assoc |].
        split; [unfold len in *; rewrite length_app; lia |].
        split; [| done]. left.
        destruct Hlt as [Hlt | [Hf _]]; [| discriminate].
        rewrite <- (take_drop k b) at 2. unfold len in *.
        rewrite !length_app. lia.
      * destruct IH as (Hd & Hn & Hw' & Hr'). cbn [io.delivered] in Hd.
        rewrite Hd, <- app_assoc, take_drop. split; [done |].
        split; [| done]. rewrite Hn. rewrite <- (take_drop k b) at 3.
        unfold len. rewrite length_app. lia.
    + apply orb_false_iff in Hc as [_ Hc].
      apply negb_false_iff, Z.eqb_eq in Hc.
      assert (b = []) as -> by (destruct b; [done | unfold len in Hc; simpl in Hc; lia]).
      rewrite app_nil_r. unfold len; simpl. repeat split; [lia | done | done].
Qed.

(** C8. The producer writes the payload to the write end and then closes it:
    when the write succeeds the pipe has handed over the whole payload and the
    reader finds a clean end of stream.  When the write fails, the producer
    closes the write end with [CloseWithError] of that very error: the write
    end carries it, only a part of the payload was handed over, and the next
    read returns an error, never a clean end of stream; it is the write error
    itself when the read end was closed with a plain [Close]. *)
Theorem producer_closes_with_error (rd : io.reader) (payload : list byte) :
  let p := (bodyProducer rd io.Pipe payload).1 in
  let did := (bodyProducer rd io.Pipe payload).2 in
  (rd = io.ReadsToEnd -> io.Read p = Some EOF /\ io.delivered p = payload) /\
  ((did = [Log ClientStartWrite; PipeWrite payload (len payload) None;
           Log ClientFinishedWrite; PipeClose None]
    /\ io.delivered p = payload /\ io.werr p = Some EOF /\ io.Read p = Some EOF)
   \/
   (exists n e reads cerr,
      rd = io.ReadsThenCloses reads cerr
      /\ did = [Log ClientStartWrite; PipeWrite payload n (Some e);
                Log (ClientWriteError e); PipeClose (Some e)]
      /\ io.delivered p `prefix_of` payload
      /\ n = len (io.delivered p)
      /\ (n < len payload \/ payload = [])
      /\ io.werr p = Some e
      /\ io.Read p = Some ErrClosedPipe
      /\ io.Read p <> Some EOF
      /\ (cerr = None -> io.Read p = Some e))).
Proof.
  intros p did. subst p did.
  destruct rd as [| reads cerr].
  - split; [by intros _ |]. left. by repeat split.
  - split; [discriminate |].
    unfold bodyProducer, io.Write. cbn [io.done io.Pipe io.werr io.rerr].
    pose proof (write_loop_spec reads cerr io.Pipe payload true 0 eq_refl eq_refl) as H.
    destruct (io.write_loop reads cerr io.Pipe payload true 0) as [[p' rd'] [n' [e |]]].
    + destruct H as (pre & Hpre & Hd & Hn & Hlt & Hw & Hr & He).
      right. exists n', e, reads, cerr. cbn [fst snd io.delivered io.closeWrite].
      cbn [io.Pipe io.delivered app] in Hd.
      split; [done |]. split; [done |]. split; [by rewrite Hd |].
      split; [by rewrite Hd, Hn |].
      split; [destruct Hlt as [Hlt | [_ Hlt]]; [left; lia | by right] |].
      unfold io.Read, io.done, io.readCloseError, io.closeWrite, io.onceError_Store.
      cbn [io.werr io.rerr default]. rewrite Hw, Hr.
      split; [done |]. split; [done |]. split; [done |].
      intros ->. by rewrite He.
    + destruct H as (Hd & Hn & Hw & Hr). left.
      cbn [fst snd]. cbn [io.Pipe io.delivered app] in Hd.
      unfold io.Read, io.Close, io.closeWrite, io.done, io.readCloseError,
        io.onceError_Store. cbn [io.werr io.rerr io.delivered default].
      rewrite Hw, Hr, Hd, Hn. by replace (0 + len payload) with (len payload) by lia.
Qed.

Lemma producer_closes_with_error_witness :
  let p := (bodyProducer io.ReadsToEnd io.Pipe (bytes_of_string requestBodyContent)).1 in
  io.Read p = Some EOF /\ io.delivered p = bytes_of_string requestBodyContent.
Proof.
  apply (producer_closes_with_error io.ReadsToEnd (bytes_of_string requestBodyContent)).
  reflexivity.
Defined.

(** The reader goes away after two bytes: the write fails and the write end
    is closed with the error of the write. *)
Example producer_broken_pipe :
  bodyProducer (io.ReadsThenCloses [2%nat] None) io.Pipe (bytes_of_string "abcde")
  = ({| io.delivered := bytes_of_string "ab";
        io.werr := Some ErrClosedPipe; io.rerr := Some ErrClosedPipe |},
     [Log ClientStartWrite;
      PipeWrite (bytes_of_string "abcde") 2 (Some ErrClosedPipe);
      Log (ClientWriteError ErrClosedPipe); PipeClose (Some ErrClosedPipe)]).
Proof. reflexivity. Qed.

(** ** The declared length: parsing and name binding *)

Lemma Atoi_ok_iff s n :
  strconv.Atoi s = strconv.Ok n <-> strconv.signed_decimal s = Some n.
Proof.
  pose proof (Atoi_spec s) as H.
  destruct (strconv.Atoi s) as [m | e]; rewrite H; split; congruence.
Qed.

Lemma filter_verdict_check l :
  List.filter is_verdict l = List.filter is_verdict (List.filter is_check l).
Proof.
  induction l as [| e l IH]; simpl; [reflexivity |].
  destruct e as [[] | | | | | | | | |]; simpl; by rewrite ?IH.
Qed.

Lemma field_events_print L kv kvs :
  kv ∈ kvs -> In (Printf kv.1 kv.2) (flat_map (field_events L) kvs).
Proof.
  intros Hin. apply in_flat_map. exists kv. split; [by apply list_elem_of_In |].
  unfold field_events. by left.
Qed.

(** Every field of the received trailer map is printed in a run that reads
    the body to its end. *)
Lemma handle_prints_trailer rt r name values :
  range_ok rt -> (read_result r).2 = None ->
  received_trailer r !! name = Some values ->
  In (Printf name values) (logged (handle rt r)).
Proof.
  intros [_ Hrt] Hread Hl. rewrite handle_logged. unfold server_trace.
  rewrite Hread. apply in_or_app. right. cbn [app]. right.
  apply in_or_app. left. unfold trailer_events. cbn [app]. do 3 right.
  apply in_or_app. left.
  destruct (0 <? Z.of_nat (size (received_trailer r))) eqn:Hsz.
  - right. apply (field_events_print _ (name, values)).
    rewrite (Hrt _). by apply elem_of_map_to_list.
  - apply Z.ltb_ge in Hsz.
    assert (Hs : size (received_trailer r) = 0%nat) by lia.
    apply map_size_empty_iff in Hs. rewrite Hs in Hl. by rewrite lookup_empty in Hl.
Qed.

(** C3, as the code has it.  The handler parses the first value of the
    expected field with [strconv.Atoi]: as a base-10 integer with an optional
    sign that fits an [int] (a negative number parses).  When the value is not
    such a text the parse fails, and then the handler logs the parse error,
    logs no declared length and no verdict, does not panic, and answers 200
    with the confirmation. *)
Theorem parse_failure_skips_verification (rt : Runtime) (r : Request Body)
    (v : string) (vs : list string) :
  range_ok rt ->
  (read_result r).2 = None ->
  received_trailer r !! trailerHeaderName = Some (v :: vs) ->
  strconv.signed_decimal v = None ->
  let res := handle rt r in
  (forall s n, strconv.Atoi s = strconv.Ok n <-> strconv.signed_decimal s = Some n) /\
  (exists cerr, strconv.Atoi v = strconv.Err cerr
                /\ List.filter is_check (logged res) = [Log (ServerParseError v cerr)]) /\
  List.filter is_verdict (logged res) = [] /\
  panicked res = false /\
  (response res).1 = Some StatusOK /\
  (write_error rt = None -> (response res).2 = bytes_of_string confirmation).
Proof.
  intros Hrt Hread Hl Hv res. subst res.
  split; [apply Atoi_ok_iff |].
  assert (Hchecks : exists cerr, strconv.Atoi v = strconv.Err cerr
            /\ List.filter is_check (logged (handle rt r)) = [Log (ServerParseError v cerr)]).
  { rewrite (handle_checks rt r Hrt), Hread. unfold declared. rewrite Hl.
    unfold parse_events. pose proof (Atoi_spec v) as Ha.
    destruct (strconv.Atoi v) as [n | cerr]; [congruence |]. by exists cerr. }
  split; [exact Hchecks |].
  split.
  { destruct Hchecks as (cerr & _ & Hc). by rewrite filter_verdict_check, Hc. }
  rewrite handle_returns, handle_response. unfold server_response. rewrite Hread.
  split; [reflexivity |]. split; [reflexivity |]. by intros ->.
Qed.

Lemma parse_failure_skips_verification_witness :
  let res := handle rt0 (incoming ∅ (bytes_of_string "abc") EOF ∅
                           {[ trailerHeaderName := ["three"] ]}) in
  List.filter is_verdict (logged res) = [] /\
  panicked res = false /\
  (response res).1 = Some StatusOK.
Proof.
  intros res.
  destruct (parse_failure_skips_verification rt0
              (incoming ∅ (bytes_of_string "abc") EOF ∅
                 {[ trailerHeaderName := ["three"] ]}) "three" [])
    as (_ & _ & Hv & Hp & Hs & _).
  - split; intros m; reflexivity.
  - reflexivity.
  - reflexivity.
  - reflexivity.
  - split; [exact Hv |]. split; [exact Hp | exact Hs].
Defined.

(** C3, as stated, fails: ["-5"] is not a non-negative base-10 integer, yet
    its parse succeeds and the verification is not skipped: the handler
    reports the length -5 and logs the mismatch verdict. *)
Lemma negative_length_is_verified :
  let res := handle rt0 (incoming ∅ (bytes_of_string "abc") EOF ∅
                           {[ trailerHeaderName := ["-5"] ]}) in
  strconv.digits_only "-5" = false /\
  strconv.Atoi "-5" = strconv.Ok (-5) /\
  List.filter is_check (logged res)
  = [Log (ServerTrailerLength (-5)); Log ServerMismatch].
Proof. vm_compute. repeat split. Qed.

(** C4, as the code has it.  The handler recognizes the trailer field by the
    fixed name [trailerHeaderName], which is the name this program's client
    announces; the announce header of the request it serves is logged and not
    consulted.  Every field of the received trailer map is printed; what is
    parsed and verified is the first value of the field of that name, and two
    requests with the same body and the same field of that name get the same
    lines, whatever else their headers and trailers hold. *)
Theorem name_binding (rt : Runtime) (r : Request Body) :
  range_ok rt ->
  (read_result r).2 = None ->
  let res := handle rt r in
  (forall name values,
     received_trailer r !! name = Some values -> In (Printf name values) (logged res)) /\
  List.filter is_check (logged res)
  = match declared (received_trailer r) with
    | Some v => parse_events (len (unread (Body_ r))) v
    | None => []
    end /\
  (forall r',
     (read_result r').2 = None ->
     unread (Body_ r') = unread (Body_ r) ->
     received_trailer r' !! trailerHeaderName = received_trailer r !! trailerHeaderName ->
     List.filter is_check (logged (handle rt r')) = List.filter is_check (logged res)) /\
  In (Log (ServerAnnounced (Header_Get (Header_ r) "Trailer"))) (logged res) /\
  (forall content,
     Header_Get (Header_ (clientRequest content)) "Trailer" = trailerHeaderName).
Proof.
  intros Hrt Hread res. subst res.
  split; [intros name values; by apply handle_prints_trailer |].
  split; [by rewrite (handle_checks rt r Hrt), Hread |].
  split.
  { intros r' Hread' Hb Ht. rewrite !handle_checks by done.
    rewrite Hread, Hread'. unfold declared. by rewrite Ht, Hb. }
  split.
  { rewrite handle_logged. unfold server_trace, header_events.
    apply in_or_app. left. apply in_or_app. right. apply in_or_app. right.
    right. by left. }
  intros content. by rewrite clientRequest_Header.
Qed.

Lemma name_binding_witness :
  let r := incoming {[ "Trailer" := [trailerHeaderName] ]} (bytes_of_string "abc") EOF ∅
             {[ trailerHeaderName := ["3"]; "X-Checksum" := ["3"] ]} in
  In (Printf "X-Checksum" ["3"]) (logged (handle rt0 r)) /\
  List.filter is_check (logged (handle rt0 r))
  = [Log (ServerTrailerLength 3); Log ServerMatch].
Proof.
  intros r.
  destruct (name_binding rt0 r) as (Hprint & Hchecks & _).
  - split; intros m; reflexivity.
  - reflexivity.
  - split; [by apply Hprint | by rewrite Hchecks].
Defined.

(** C4, as stated, fails: the request announces the trailer field name
    [X-Checksum] and no other, and carries a trailer field of another name,
    [X-Body-Byte-Length]; the handler parses and verifies that field all the
    same. *)
Lemma unannounced_field_is_verified :
  let r := incoming {[ "Trailer" := ["X-Checksum"] ]} (bytes_of_string "abc") EOF ∅
             {[ trailerHeaderName := ["3"] ]} in
  Header_Get (Header_ r) "Trailer" = "X-Checksum" /\
  trailerHeaderName <> "X-Checksum" /\
  received_trailer r = {[ trailerHeaderName := ["3"] ]} /\
  List.filter is_check (logged (handle rt0 r))
  = [Log (ServerTrailerLength 3); Log ServerMatch].
Proof.
  intros r. split; [reflexivity |]. split; [discriminate |].
  split; [subst r; unfold received_trailer, mergeSetHeader; cbn; apply map_union_empty |].
  vm_compute. reflexivity.
Qed.

(** The reader of the pipe goes away after two bytes: the request is cut off,
    the read of the body fails on the server, and the handler answers 500. *)
Example broken_pipe_answers_500 :
  let p := (bodyProducer (io.ReadsThenCloses [2%nat] None) io.Pipe
              (bytes_of_string requestBodyContent)).1 in
  response (handle rt0 (exchange ∅ ∅ (clientRequest requestBodyContent) p))
  = (Some StatusInternalServerError, bytes_of_string error_message).
Proof. vm_compute. reflexivity. Qed.

(** * Further properties of the program *)

(** ** The verdict *)

Lemma response_status_clean rt r :
  (read_result r).2 = None -> (response (handle rt r)).1 = Some StatusOK.
Proof.
  intros Hread. rewrite handle_response. unfold server_response. by rewrite Hread.
Qed.

(** X1. After a clean read, the first value of the expected field decides the
    verdict by the number it denotes: when it is a base-10 integer with an
    optional sign that fits an [int] (a plus sign and leading zeros are
    accepted), the handler reports that number and logs "match" when it is
    the number of bytes read and "mismatch" when it is not; a negative number
    is always a mismatch.  The answer is 200 either way. *)
Theorem declared_value_decides_verdict (rt : Runtime) (r : Request Body)
    (v : string) (vs : list string) (n : Z) :
  range_ok rt ->
  (read_result r).2 = None ->
  received_trailer r !! trailerHeaderName = Some (v :: vs) ->
  strconv.signed_decimal v = Some n ->
  let res := handle rt r in
  let observed := len (unread (Body_ r)) in
  List.filter is_check (logged res)
  = [Log (ServerTrailerLength n);
     Log (if n =? observed then ServerMatch else ServerMismatch)] /\
  (n = observed -> List.filter is_verdict (logged res) = [Log ServerMatch]) /\
  (n <> observed -> List.filter is_verdict (logged res) = [Log ServerMismatch]) /\
  (n < 0 -> List.filter is_verdict (logged res) = [Log ServerMismatch]) /\
  (response res).1 = Some StatusOK.
Proof.
  intros Hrt Hread Hl Hv res observed. subst res observed.
  assert (Hchecks : List.filter is_check (logged (handle rt r))
            = [Log (ServerTrailerLength n);
               Log (if n =? len (unread (Body_ r)) then ServerMatch else ServerMismatch)]).
  { rewrite (handle_checks rt r Hrt), Hread. unfold declared. rewrite Hl.
    unfold parse_events. apply Atoi_ok_iff in Hv. by rewrite Hv. }
  split; [exact Hchecks |].
  rewrite filter_verdict_check, Hchecks.
  split; [| split; [| split]].
  - intros ->. by rewrite Z.eqb_refl.
  - intros Hne. by destruct (Z.eqb_spec n (len (unread (Body_ r)))).
  - intros Hneg. destruct (Z.eqb_spec n (len (unread (Body_ r)))) as [Heq |]; [| done].
    unfold len in Heq. lia.
  - by apply response_status_clean.
Qed.

Lemma declared_value_decides_verdict_witness :
  let res := handle rt0 (incoming ∅ (bytes_of_string "abc") EOF ∅
                           {[ trailerHeaderName := ["+003"] ]}) in
  List.filter is_check (logged res) = [Log (ServerTrailerLength 3); Log ServerMatch].
Proof.
  apply (declared_value_decides_verdict rt0
           (incoming ∅ (bytes_of_string "abc") EOF ∅ {[ trailerHeaderName := ["+003"] ]})
           "+003" [] 3).
  - split; intros m; reflexivity.
  - reflexivity.
  - reflexivity.
  - reflexivity.
Defined.

Example declared_too_long_is_mismatch :
  let res := handle rt0 (incoming ∅ (bytes_of_string "abc") EOF ∅
                           {[ trailerHeaderName := ["5"] ]}) in
  List.filter is_check (logged res) = [Log (ServerTrailerLength 5); Log ServerMismatch]
  /\ response res = (Some StatusOK, bytes_of_string confirmation).
Proof. vm_compute. split; reflexivity. Qed.

Lemma parse_events_verdicts L v :
  (List.length (List.filter is_verdict (parse_events L v)) <= 1)%nat.
Proof.
  unfold parse_events, verify. destruct (strconv.Atoi v) as [n | e]; simpl; [| lia].
  destruct (n =? L); simpl; lia.
Qed.

(** X2. A request gets one verdict at most: whatever the headers, the body
    and the trailer map are, and in whatever order the map is walked, a run
    logs no more than one "match" or "mismatch" line, and no more than one
    line about a parse. *)
Theorem at_most_one_verdict (rt : Runtime) (r : Request Body) :
  range_ok rt ->
  (List.length (List.filter is_verdict (logged (handle rt r))) <= 1)%nat /\
  (List.length (List.filter is_check (logged (handle rt r))) <= 2)%nat.
Proof.
  intros Hrt. rewrite filter_verdict_check, (handle_checks rt r Hrt).
  destruct (read_result r).2 as [e |]; [simpl; lia |].
  destruct (declared (received_trailer r)) as [v |]; [| simpl; lia].
  split; [apply parse_events_verdicts |].
  unfold parse_events. destruct (strconv.Atoi v); simpl; lia.
Qed.

Lemma at_most_one_verdict_witness :
  let res := handle rt0 (incoming {[ "Trailer" := ["A"; "B"] ]} (bytes_of_string "abc") EOF
                           {[ "A" := ["3"] ]}
                           {[ trailerHeaderName := ["3"; "4"]; "B" := ["3"] ]}) in
  (List.length (List.filter is_verdict (logged res)) <= 1)%nat /\
  (List.length (List.filter is_check (logged res)) <= 2)%nat.
Proof.
  apply (at_most_one_verdict rt0). split; intros m; reflexivity.
Defined.

(** ** What is printed and what is not *)

Lemma filter_field_events_nil (p : Event -> bool) L kvs :
  (forall name values, p (Printf name values) = false) ->
  (forall e, is_check e = true -> p e = false) ->
  List.filter p (flat_map (field_events L) kvs) = [].
Proof.
  intros Hprint Hcheck.
  induction kvs as [| [name values] kvs IH]; simpl; [reflexivity |].
  rewrite Hprint, List.filter_app, IH, app_nil_r.
  destruct (String.eqb name trailerHeaderName); [| reflexivity].
  destruct values as [| v vs]; [reflexivity |].
  unfold parse_events, verify. destruct (strconv.Atoi v) as [n | e]; simpl.
  - rewrite (Hcheck (Log (ServerTrailerLength n))) by done.
    by destruct (n =? L); rewrite Hcheck.
  - by rewrite Hcheck.
Qed.

Lemma filter_printf_field_events L kvs :
  List.filter is_printf (flat_map (field_events L) kvs) = map print_event kvs.
Proof.
  induction kvs as [| [name values] kvs IH]; simpl; [reflexivity |].
  rewrite List.filter_app, IH. unfold print_event at 2. cbn [fst snd]. f_equal.
  replace (List.filter is_printf _) with (@nil Event); [reflexivity |].
  destruct (String.eqb name trailerHeaderName); [| reflexivity].
  destruct values as [| v vs]; [reflexivity |].
  unfold parse_events, verify. destruct (strconv.Atoi v) as [n | e]; [| reflexivity].
  simpl. by destruct (n =? L).
Qed.

Lemma filter_printf_prints kvs :
  List.filter is_printf (map print_event kvs) = map print_event kvs.
Proof.
  induction kvs as [| kv kvs IH]; simpl; [reflexivity | by rewrite IH].
Qed.

Lemma size_zero_empty (t : Header) :
  (0 <? Z.of_nat (size t)) = false -> t = ∅.
Proof.
  intros H. apply Z.ltb_ge in H. apply map_size_empty_iff. lia.
Qed.

Lemma size_pos_nonempty (t : Header) :
  (0 <? Z.of_nat (size t)) = true -> t <> ∅.
Proof.
  intros H Ht. subst t. by rewrite map_size_empty in H.
Qed.

(** X3. After a clean read the handler logs "No trailer headers received"
    exactly when the received trailer map is empty, and then nothing else
    happens in the trailer phase.  When the map has no field of the expected
    name, whatever else it holds, nothing is parsed and nothing is verified. *)
Theorem no_trailers_and_absent_field (rt : Runtime) (r : Request Body) :
  range_ok rt ->
  (read_result r).2 = None ->
  let res := handle rt r in
  List.filter is_no_trailers (logged res)
  = (if decide (received_trailer r = ∅) then [Log ServerNoTrailers] else []) /\
  (received_trailer r = ∅ ->
   List.filter trailer_phase (logged res)
   = [Log ServerTrailerHeaders; ReadTrailer; Log ServerNoTrailers]) /\
  (received_trailer r !! trailerHeaderName = None ->
   List.filter is_check (logged res) = []).
Proof.
  intros Hrt Hread res. subst res. split; [| split].
  - rewrite handle_logged. unfold server_trace, header_events, trailer_events.
    rewrite Hread. rewrite !List.filter_app. rewrite filter_print_nil by done.
    cbn [List.filter is_no_trailers app].
    destruct (0 <? Z.of_nat (size (received_trailer r))) eqn:Hsz.
    + cbn [List.filter is_no_trailers].
      rewrite filter_field_events_nil; [| done | by intros [[] | | | | | | | | |]].
      destruct (decide (received_trailer r = ∅)) as [He |];
        [by apply size_pos_nonempty in Hsz | by destruct (write_error rt)].
    + destruct (decide (received_trailer r = ∅)) as [| Hne];
        [by destruct (write_error rt) | by apply size_zero_empty in Hsz].
  - intros He. rewrite handle_logged. unfold server_trace, header_events, trailer_events.
    rewrite Hread, He. rewrite !List.filter_app. rewrite filter_print_nil by done.
    rewrite map_size_empty. by destruct (write_error rt).
  - intros Hl. rewrite (handle_checks rt r Hrt), Hread. unfold declared. by rewrite Hl.
Qed.

Lemma no_trailers_and_absent_field_witness :
  let res := handle rt0 (incoming {[ "Trailer" := [trailerHeaderName] ]}
                           (bytes_of_string "abc") EOF ∅ ∅) in
  List.filter trailer_phase (logged res)
  = [Log ServerTrailerHeaders; ReadTrailer; Log ServerNoTrailers].
Proof.
  intros res.
  destruct (no_trailers_and_absent_field rt0
              (incoming {[ "Trailer" := [trailerHeaderName] ]}
                 (bytes_of_string "abc") EOF ∅ ∅)) as (_ & Hempty & _).
  - split; intros m; reflexivity.
  - reflexivity.
  - apply Hempty. apply map_union_empty.
Defined.

(** X4. Every header of the request is printed exactly once, before the body
    is read, and after a clean read every field of the received trailer map is
    printed exactly once, the expected one and the others alike; nothing else
    is printed.  When the read of the body fails no trailer field is
    printed. *)
Theorem every_field_printed_once (rt : Runtime) (r : Request Body) :
  range_ok rt ->
  exists hs ts : list (string * list string),
    List.filter is_printf (logged (handle rt r))
    = map print_event hs ++ map print_event ts
    /\ hs ≡ₚ map_to_list (Header_ r)
    /\ List.filter is_printf (header_events rt r) = map print_event hs
    /\ ts ≡ₚ match (read_result r).2 with
             | None => map_to_list (received_trailer r)
             | Some _ => []
             end.
Proof.
  intros [Hh Ht]. rewrite handle_logged. unfold server_trace.
  exists (range_header rt (Header_ r)).
  assert (Hhe : List.filter is_printf (header_events rt r)
                = map print_event (range_header rt (Header_ r))).
  { unfold header_events. rewrite !List.filter_app, filter_printf_prints.
    cbn [List.filter is_printf app]. by rewrite app_nil_r. }
  destruct (read_result r).2 as [e |].
  - exists []. rewrite !List.filter_app, Hhe. cbn [List.filter is_printf app map].
    split; [reflexivity |]. split; [apply Hh |]. split; reflexivity.
  - unfold trailer_events.
    destruct (0 <? Z.of_nat (size (received_trailer r))) eqn:Hsz.
    + exists (range_trailer rt (received_trailer r)).
      rewrite !List.filter_app, Hhe. cbn [List.filter is_printf app].
      rewrite filter_printf_field_events.
      split; [by rewrite !app_nil_r |].
      split; [apply Hh |]. split; [reflexivity | apply Ht].
    + exists []. rewrite !List.filter_app, Hhe. cbn [List.filter is_printf app].
      split; [reflexivity |].
      split; [apply Hh |]. split; [reflexivity |].
      apply size_zero_empty in Hsz. by rewrite Hsz, map_to_list_empty.
Qed.

Lemma every_field_printed_once_witness :
  exists hs ts : list (string * list string),
    List.filter is_printf
      (logged (handle rt0 (incoming {[ "Trailer" := [trailerHeaderName] ]}
                             (bytes_of_string "abc") EOF ∅
                             {[ trailerHeaderName := ["3"]; "X-Checksum" := ["c"] ]})))
    = map print_event hs ++ map print_event ts
    /\ List.length hs = 1%nat /\ List.length ts = 2%nat.
Proof.
  destruct (every_field_printed_once rt0
              (incoming {[ "Trailer" := [trailerHeaderName] ]}
                 (bytes_of_string "abc") EOF ∅
                 {[ trailerHeaderName := ["3"]; "X-Checksum" := ["c"] ]}))
    as (hs & ts & Hf & Hhs & _ & Hts).
  - split; intros m; reflexivity.
  - exists hs, ts. split; [exact Hf |]. split.
    + by rewrite Hhs.
    + by rewrite Hts.
Defined.

(** ** The request and the response writer after a run *)

(** The request a run leaves behind: the body is closed, the header map is
    as it was, and the trailer map is the received one after a clean read. *)
Lemma handle_final rt r :
  exists w, handle rt r = Ret tt w
            /\ closed (Body_ (request w)) = true
            /\ Method (request w) = Method r
            /\ Header_ (request w) = Header_ r
            /\ Trailer (request w)
               = match (read_result r).2 with
                 | None => received_trailer r
                 | Some _ => Trailer r
                 end.
Proof.
  destruct r as [m u h [b e wt c] t].
  unfold handle, serverHandler, defer, read_result, received_trailer.
  unfold http_Error, w_Write, w_WriteHeader, Body_Close, ReadAll_Body, r_Trailer,
    r_Header, log, io.ReadAll, ErrBodyReadAfterClose.
  cbn -[bytes_of_string confirmation error_message Z.ltb len size].
  destruct c; [| destruct e as [| | | msg]].
  - repeat run_step. eexists. split; [reflexivity |]. by cbn.
  - repeat run_step.
    destruct (0 <? Z.of_nat (size (wt ∪ t)));
      destruct (write_error rt) as [e |];
      repeat run_step; (eexists; split; [reflexivity |]; by cbn).
  - repeat run_step. eexists. split; [reflexivity |]. by cbn.
  - repeat run_step. eexists. split; [reflexivity |]. by cbn.
  - repeat run_step. eexists. split; [reflexivity |]. by cbn.
Qed.

Lemma server_trace_last rt r :
  exists pre, server_trace rt r = pre ++ [BodyClosed]
              /\ List.filter is_close pre = [].
Proof.
  unfold server_trace.
  exists (header_events rt r
          ++ [ReadAllReturned (len (read_result r).1) (read_result r).2]
          ++ match (read_result r).2 with
             | Some e =>
                 [Log (ServerReadError e); WriteHeader StatusInternalServerError;
                  WriteBody (bytes_of_string error_message) (write_error rt)]
             | None => trailer_events rt r
             end).
  split; [by rewrite <- !app_assoc |].
  unfold header_events. rewrite !List.filter_app. rewrite filter_print_nil by done.
  cbn [List.filter is_close app].
  destruct (read_result r).2 as [e |]; [reflexivity |].
  unfold trailer_events. rewrite !List.filter_app. cbn [List.filter is_close app].
  destruct (0 <? Z.of_nat (size (received_trailer r))).
  - cbn [List.filter is_close].
    rewrite filter_field_events_nil; [| done | by intros [[] | | | | | | | | |]].
    by destruct (write_error rt).
  - by destruct (write_error rt).
Qed.

(** X5. The deferred [r.Body.Close()] runs on every path: each run, the one
    that answers 500 included, closes the body exactly once, as the last
    thing it does, after the response is written; a later read of the body
    fails.  The run leaves the header map of the request as it found it. *)
Theorem body_closed_at_the_end (rt : Runtime) (r : Request Body) :
  let res := handle rt r in
  List.filter is_close (logged res) = [BodyClosed] /\
  last (logged res) = Some BodyClosed /\
  closed (Body_ (request (world_of res))) = true /\
  Header_ (request (world_of res)) = Header_ r /\
  exists w, ReadAll_Body (world_of res) = Ret ([], Some ErrBodyReadAfterClose) w.
Proof.
  intros res. subst res.
  destruct (server_trace_last rt r) as (pre & Hpre & Hnone).
  rewrite handle_logged, Hpre.
  split; [by rewrite List.filter_app, Hnone |].
  split; [apply last_snoc |].
  destruct (handle_final rt r) as (w & Hw & Hc & _ & Hh & _). rewrite Hw. cbn [world_of].
  split; [exact Hc |]. split; [exact Hh |].
  unfold ReadAll_Body. rewrite bind_run. cbn [get_request]. rewrite Hc.
  rewrite bind_run, emit_run. eexists. reflexivity.
Qed.

(** X6. A failure of the write of the response is logged and nothing more:
    the run does not panic, the status stays the one written before (200 after
    a clean read, 500 after a failed one), no byte of the body reaches the
    client, and the lines about the declared length are those of the run in
    which the write succeeds.  After a clean read the error is logged in place
    of "Sent response"; on the 500 path the failed write of the error message
    is not logged at all. *)
Theorem response_write_failure_is_logged_only (rt : Runtime) (r : Request Body)
    (e : error) :
  write_error rt = Some e ->
  let res := handle rt r in
  panicked res = false /\
  (response res).2 = [] /\
  (response res).1
  = Some (match (read_result r).2 with
          | None => StatusOK
          | Some _ => StatusInternalServerError
          end) /\
  List.filter is_write_report (logged res)
  = match (read_result r).2 with
    | None => [Log (ServerWriteError e)]
    | Some _ => []
    end /\
  List.filter is_write_report (logged (handle (with_write_error rt None) r))
  = match (read_result r).2 with
    | None => [Log ServerSent]
    | Some _ => []
    end /\
  List.filter is_check (logged res)
  = List.filter is_check (logged (handle (with_write_error rt None) r)).
Proof.
  intros He res. subst res.
  rewrite handle_returns, handle_response, !handle_logged.
  unfold server_response, server_trace, header_events, trailer_events.
  cbn [write_error with_write_error range_header range_trailer]. rewrite He.
  split; [reflexivity |].
  rewrite !List.filter_app. rewrite !filter_print_nil by done.
  destruct (read_result r).2 as [e' |].
  - repeat split; reflexivity.
  - split; [reflexivity |]. split; [reflexivity |].
    rewrite !List.filter_app.
    destruct (0 <? Z.of_nat (size (received_trailer r)));
      cbn [List.filter is_write_report is_check app];
      rewrite ?(filter_field_events_nil is_write_report);
      try done; try (by intros [[] | | | | | | | | |]).
Qed.

Lemma response_write_failure_is_logged_only_witness :
  let rt := with_write_error rt0 (Some ErrClosedPipe) in
  let res := handle rt (incoming ∅ (bytes_of_string "abc") EOF ∅
                          {[ trailerHeaderName := ["3"] ]}) in
  panicked res = false /\
  response res = (Some StatusOK, []) /\
  List.filter is_write_report (logged res) = [Log (ServerWriteError ErrClosedPipe)].
Proof.
  intros rt res.
  destruct (response_write_failure_is_logged_only rt
              (incoming ∅ (bytes_of_string "abc") EOF ∅ {[ trailerHeaderName := ["3"] ]})
              ErrClosedPipe)
    as (Hp & Hb & Hs & Hw & _).
  - reflexivity.
  - split; [exact Hp |]. split; [| exact Hw].
    subst res. destruct (response _) as [st bd]. cbn [fst snd] in *.
    by rewrite Hb, Hs.
Defined.

(** X7. The handler uses the method, the URL and the headers of a request for
    nothing but the log: the same body and trailers under any other method,
    URL and header map get the same response, and the same events from the
    return of [io.ReadAll] on. *)
Theorem handler_ignores_head (rt : Runtime) (r : Request Body)
    (m u : string) (h : Header) :
  let r' := with_head r m u h in
  response (handle rt r') = response (handle rt r) /\
  drop (List.length (header_events rt r')) (logged (handle rt r'))
  = drop (List.length (header_events rt r)) (logged (handle rt r)) /\
  List.filter is_check (logged (handle rt r'))
  = List.filter is_check (logged (handle rt r)).
Proof.
  intros r'. subst r'.
  rewrite !handle_response, !handle_logged.
  split; [reflexivity |].
  unfold server_trace. rewrite !drop_app_length.
  split; [reflexivity |].
  unfold header_events. rewrite !List.filter_app. rewrite !filter_print_nil by done.
  reflexivity.
Qed.

(** ** The declared length, written and read back *)

(** X8. What the client writes with [strconv.Itoa] (line 132) the server
    reads back with [strconv.Atoi] (line 63) as the same number, for every
    [int], the negative ones and the two ends of the range included; so the
    trailer value the client sets for a content parses to the byte length of
    that content. *)
Theorem Atoi_reads_back_Itoa (n : Z) :
  GoInt.in_range n ->
  strconv.Atoi (strconv.Itoa n) = strconv.Ok n /\
  (forall content,
     len_string content = n ->
     declared (Trailer (clientRequest content)) = Some (strconv.Itoa n)).
Proof.
  intros Hn. split.
  - unfold GoInt.in_range in Hn.
    assert (Hmax : GoInt.maxInt = 9223372036854775807) by reflexivity.
    assert (Hmin : GoInt.minInt = -9223372036854775808) by reflexivity.
    destruct (Z.lt_ge_cases n 0) as [Hneg | Hpos]; [| apply Atoi_Itoa; lia].
    apply Atoi_ok_iff. unfold strconv.Itoa.
    destruct (Z.ltb_spec n 0); [| lia].
    rewrite wrapU_id by (unfold GoInt.maxUint64; lia).
    pose proof (formatBits_nonempty 20 (- n) "") as Hne.
    pose proof (formatBits_digits 20 (- n) "" ltac:(lia) eq_refl) as Hd.
    assert (Hv : strconv.decimal_value (strconv.formatBits 20 (- n) "") 0 = - n).
    { rewrite formatBits_value; [reflexivity |].
      assert (2 ^ 63 < 10 ^ Z.of_nat 21) by (vm_compute; reflexivity). lia. }
    unfold strconv.signed_decimal.
    change (strconv.is_sign "-"%char) with true.
    change (strconv.is_minus "-"%char) with true. cbv iota.
    destruct (strconv.formatBits 20 (- n) "") as [| c ds] eqn:Hf; [done |].
    rewrite Hd, Hv.
    destruct (Z.leb_spec GoInt.minInt (- - n)); [| lia].
    destruct (Z.leb_spec (- - n) GoInt.maxInt); [| lia].
    cbn [andb]. f_equal. lia.
  - intros content <-. rewrite clientRequest_Trailer, len_bytes_of_string.
    unfold declared. by rewrite lookup_singleton_eq.
Qed.

Lemma Atoi_reads_back_Itoa_witness :
  strconv.Atoi (strconv.Itoa GoInt.minInt) = strconv.Ok GoInt.minInt.
Proof.
  apply (Atoi_reads_back_Itoa GoInt.minInt). vm_compute. split; discriminate.
Defined.

(** ** The program's own exchange *)

(** What the producer leaves behind, for every reader of the pipe: a clean
    end after the whole payload, or a pipe whose next read fails. *)
Lemma bodyProducer_outcome rd payload :
  let p := (bodyProducer rd io.Pipe payload).1 in
  let did := (bodyProducer rd io.Pipe payload).2 in
  (io.Read p = Some EOF /\ io.delivered p = payload /\ In (PipeClose None) did)
  \/ (io.Read p = Some ErrClosedPipe /\ io.delivered p `prefix_of` payload
      /\ ~ In (PipeClose None) did).
Proof.
  intros p did. subst p did. destruct rd as [| reads cerr].
  - left. split; [reflexivity |]. split; [reflexivity |]. simpl. tauto.
  - unfold bodyProducer, io.Write. cbn [io.done io.Pipe io.werr io.rerr].
    pose proof (write_loop_spec reads cerr io.Pipe payload true 0 eq_refl eq_refl) as H.
    destruct (io.write_loop reads cerr io.Pipe payload true 0) as [[p' rd'] [n' [e |]]].
    + destruct H as (pre & Hpre & Hd & _ & _ & Hw & Hr & _). right.
      cbn [fst snd io.Pipe io.delivered app] in *.
      unfold io.Read, io.done, io.readCloseError, io.closeWrite, io.onceError_Store.
      cbn [io.werr io.rerr io.delivered default]. rewrite Hw, Hr, Hd.
      split; [reflexivity |]. split; [exact Hpre |].
      simpl. intros [? | [? | [? | [? | []]]]]; discriminate.
    + destruct H as (Hd & _ & Hw & Hr). left.
      cbn [fst snd io.Pipe io.delivered app] in *.
      unfold io.Read, io.Close, io.closeWrite, io.done, io.readCloseError,
        io.onceError_Store. cbn [io.werr io.rerr io.delivered default].
      rewrite Hw, Hr, Hd. split; [reflexivity |]. split; [reflexivity |].
      simpl. tauto.
Qed.

(** X9. In the program's own exchange the verdict is never "mismatch",
    whatever the reader of the pipe does: when the producer's write succeeds
    and it closes the pipe cleanly, the handler answers 200 and logs "match";
    when the write fails and the pipe is closed with the error, the request is
    cut off, the read of the body fails, and the handler answers 500 without
    parsing or verifying anything. *)
Theorem own_exchange_never_mismatches (rt : Runtime) (rd : io.reader)
    (seen announced : Header) (content : string) :
  range_ok rt ->
  len_string content <= GoInt.maxInt ->
  let p := (bodyProducer rd io.Pipe (bytes_of_string content)).1 in
  let did := (bodyProducer rd io.Pipe (bytes_of_string content)).2 in
  let res := handle rt (exchange seen announced (clientRequest content) p) in
  (In (PipeClose None) did ->
   (response res).1 = Some StatusOK
   /\ List.filter is_check (logged res)
      = [Log (ServerTrailerLength (len_string content)); Log ServerMatch]) /\
  (~ In (PipeClose None) did ->
   (response res).1 = Some StatusInternalServerError
   /\ List.filter is_check (logged res) = []) /\
  ~ In (Log ServerMismatch) (logged res).
Proof.
  intros Hrt Hlen p did res.
  assert (Hcases :
    ((response res).1 = Some StatusOK
     /\ List.filter is_check (logged res)
        = [Log (ServerTrailerLength (len_string content)); Log ServerMatch]
     /\ In (PipeClose None) did)
    \/ ((response res).1 = Some StatusInternalServerError
        /\ List.filter is_check (logged res) = []
        /\ ~ In (PipeClose None) did)).
  { subst res.
    destruct (bodyProducer_outcome rd (bytes_of_string content))
      as [(Hread & Hd & Hin) | (Hread & _ & Hnin)]; fold p in Hread; fold did in Hin || fold did in Hnin.
    - left. fold p in Hd.
      set (r := exchange seen announced (clientRequest content) p).
      assert (Hclean : read_result r = (bytes_of_string content, None)).
      { subst r. unfold exchange, read_result. rewrite Hread, Hd. reflexivity. }
      split; [apply response_status_clean; by rewrite Hclean |].
      split; [| exact Hin].
      rewrite (handle_checks rt r Hrt), Hclean. cbn [snd].
      assert (Hdecl : declared (received_trailer r)
                      = Some (strconv.Itoa (len (bytes_of_string content)))).
      { unfold declared, received_trailer, mergeSetHeader. subst r.
        unfold exchange. rewrite Hread. cbn [Body_ wire_trailer Trailer].
        rewrite clientRequest_Trailer.
        by rewrite (lookup_union_Some_l _ _ _ _ (lookup_singleton_eq _ _)). }
      rewrite Hdecl. unfold parse_events.
      assert (Hu : unread (Body_ r) = bytes_of_string content).
      { subst r. unfold exchange. by rewrite Hd. }
      rewrite Hu, len_bytes_of_string.
      rewrite Atoi_Itoa by (unfold len_string in *; lia).
      unfold verify. by rewrite Z.eqb_refl.
    - right.
      set (r := exchange seen announced (clientRequest content) p).
      assert (Hfail : (read_result r).2 = Some ErrUnexpectedEOF).
      { subst r. unfold exchange, read_result. rewrite Hread. reflexivity. }
      split; [| split; [| exact Hnin]].
      + rewrite handle_response. unfold server_response. by rewrite Hfail.
      + by rewrite (handle_checks rt r Hrt), Hfail. }
  split; [| split].
  - intros Hin. destruct Hcases as [(Hs & Hc & _) | (_ & _ & Hnin)]; [done | tauto].
  - intros Hnin. destruct Hcases as [(_ & _ & Hin) | (Hs & Hc & _)]; [tauto | done].
  - intros Hmis.
    assert (Hf : In (Log ServerMismatch) (List.filter is_check (logged res))).
    { apply List.filter_In. by split. }
    destruct Hcases as [(_ & Hc & _) | (_ & Hc & _)]; rewrite Hc in Hf; simpl in Hf.
    + destruct Hf as [? | [? | []]]; discriminate.
    + destruct Hf.
Qed.

Lemma own_exchange_never_mismatches_witness :
  let p := (bodyProducer (io.ReadsThenCloses [2%nat] None) io.Pipe
              (bytes_of_string requestBodyContent)).1 in
  let res := handle rt0 (exchange ∅ ∅ (clientRequest requestBodyContent) p) in
  ~ In (Log ServerMismatch) (logged res).
Proof.
  apply (own_exchange_never_mismatches rt0 (io.ReadsThenCloses [2%nat] None) ∅ ∅
           requestBodyContent).
  - split; intros m; reflexivity.
  - vm_compute. discriminate.
Defined.

(** ** A whole run *)

(** X10. One run of the program on any body content, with a transport that
    reads the pipe to its end: the handler logs "match", and the main
    goroutine logs the request it sends, then the status "200 OK", the
    confirmation as the body of the response and "Finished", and closes the
    body of the response; when instead the connection fails under the
    response, the failure of [client.Do] is fatal: it is logged and the
    process exits with status 1, with no "Finished" line. *)
Theorem main_run_round_trip (rt : Runtime) (seen announced : Header)
    (content : string) :
  range_ok rt ->
  len_string content <= GoInt.maxInt ->
  let n := len_string content in
  let sent :=
    [MLog ClientPreparing;
     MLog (ClientSending n {[ trailerHeaderName := [strconv.Itoa n] ]});
     MGoProducer; MDo (clientRequest content)] in
  List.filter is_check (main_run rt seen announced content).1
  = [Log (ServerTrailerLength n); Log ServerMatch] /\
  (main_run rt seen announced content).2
  = sent ++ match write_error rt with
            | None =>
                [MLog (ClientStatus "200 OK");
                 MLog (ClientResponseBody (bytes_of_string confirmation));
                 MLog ClientFinished; MResponseBodyClosed]
            | Some err => [MLog (ClientSendFailed err); MExit 1]
            end.
Proof.
  intros Hrt Hlen n sent. subst n sent. unfold main_run. cbn [fst snd].
  rewrite bodyProducer_ReadsToEnd.
  set (r := exchange seen announced (clientRequest content) _).
  assert (Hread : read_result r = (bytes_of_string content, None)) by reflexivity.
  split.
  - rewrite (handle_checks rt r Hrt), Hread. cbn [snd].
    assert (Hdecl : declared (received_trailer r)
                    = Some (strconv.Itoa (len (bytes_of_string content)))).
    { unfold declared, received_trailer, mergeSetHeader. subst r.
      cbn [exchange Body_ wire_trailer Trailer io.Read io.done io.werr io.rerr
           io.readCloseError].
      rewrite clientRequest_Trailer.
      by rewrite (lookup_union_Some_l _ _ _ _ (lookup_singleton_eq _ _)). }
    rewrite Hdecl. unfold parse_events. subst r.
    cbn [exchange Body_ unread io.delivered].
    rewrite len_bytes_of_string, Atoi_Itoa by (unfold len_string in *; lia).
    unfold verify. by rewrite Z.eqb_refl.
  - unfold main_client. rewrite clientRequest_Trailer, len_bytes_of_string.
    f_equal. destruct (write_error rt) as [err |] eqn:Hw; [reflexivity |].
    pose proof (handle_response rt r) as Hresp.
    unfold response, server_response in Hresp. rewrite Hread, Hw in Hresp.
    cbn [snd] in Hresp. injection Hresp as Hst Hwr.
    unfold reply. cbn beta. fold r. rewrite Hst, Hwr.
    reflexivity.
Qed.

Lemma main_run_round_trip_witness :
  (main_run rt0 ∅ ∅ requestBodyContent).2
  = [MLog ClientPreparing;
     MLog (ClientSending 5 {[ trailerHeaderName := ["5"] ]});
     MGoProducer; MDo (clientRequest requestBodyContent);
     MLog (ClientStatus "200 OK");
     MLog (ClientResponseBody (bytes_of_string confirmation));
     MLog ClientFinished; MResponseBodyClosed].
Proof.
  destruct (main_run_round_trip rt0 ∅ ∅ requestBodyContent) as [_ H].
  - split; intros m; reflexivity.
  - vm_compute. discriminate.
  - exact H.
Defined.
